(** * Post resolvers of the readit server: pagination, vote aggregation,
      session-gated mutations, and the register validator.

    Shallow embedding of [server/src/types/post.ts].  The resolvers are
    written in a small state-and-exception monad over the record store that
    the [prisma] handle of the resolver context gives access to.  Every call
    issued to the store is recorded in a trace, so that statements about the
    number of writes can be made.

    Numbers are JavaScript numbers holding integers; they are modelled by
    [Z] (no resolver here leaves the range in which doubles are exact for
    realistic tables).  A string is a [string]; one character stands for one
    code unit, so [String.length] is the [length] property. *)

From Stdlib Require Import String Ascii ZArith Bool Arith List Lia.
Import ListNotations.

Local Open Scope string_scope.
Local Open Scope list_scope.

(** ** JavaScript primitives used by the resolvers *)

Module JS.

(** Truthiness of a string: only the empty string is falsy. *)
Definition truthy (s : string) : bool :=
  match s with
  | EmptyString => false
  | String _ _ => true
  end.

(** [arr.slice(0, e)]: a negative [e] counts from the end, and both ends
    are clamped to the array. *)
Definition slice0 {A : Type} (arr : list A) (e : Z) : list A :=
  let len := Z.of_nat (length arr) in
  let k := if (e <? 0)%Z then Z.max (len + e) 0 else Z.min e len in
  firstn (Z.to_nat k) arr.

(** An optional property of an input object: left out, [null], or set. *)
Inductive optional (A : Type) : Type :=
| Undefined : optional A
| Null : optional A
| Value : A -> optional A.
Arguments Undefined {A}.
Arguments Null {A}.
Arguments Value {A} _.

End JS.

(** ** Rows of the store

    The columns of a post are those the [Post] object type declares.  The
    schema of the store is not among the sources; of the other tables only
    the columns the resolvers name are kept. *)

Module PostType.
Record t : Type := mk
  { id : string;
    title : string;
    body : string;
    image : option string;
    creatorId : string;
    subName : string;
    createdAt : Z;
    updatedAt : Z }.
End PostType.

(** Modelled from the spec: a vote maps a (user identifier, post
    identifier) pair to a signed value. *)
Module PostVote.
Record t : Type := mk
  { userId : string;
    postId : string;
    value : Z }.
End PostVote.

(** Modelled from the spec: a subscription is a (user identifier, sub
    name) pair. *)
Module UserSub.
Record t : Type := mk
  { userId : string;
    subName : string }.
End UserSub.

(** Modelled from the spec: comments belong to one post and are ordered
    by creation time; [id] is the key a cursor names. *)
Module Comment.
Record t : Type := mk
  { id : string;
    postId : string;
    createdAt : Z }.
End Comment.

(** The tables.  [users] and [subs] hold the key columns ([User.id] and
    [Sub.name]) that a post refers to. *)
Record Store : Type := mkStore
  { posts : list PostType.t;
    postVotes : list PostVote.t;
    userSubs : list UserSub.t;
    comments : list Comment.t;
    users : list string;
    subs : list string }.

(** ** Input objects *)

(** Modelled from the spec: [types/input] is not among the sources; the
    input of a post is [{title, body, image?}]. *)
Record PostInput : Type := mkPostInput
  { in_title : string;
    in_body : string;
    in_image : JS.optional string }.

(** Modelled from the spec: the pagination input is [{cursor?, take}]. *)
Record PaginationInput : Type := mkPaginationInput
  { in_cursor : option string;
    in_take : Z }.

(** Modelled from the spec: the fetch directive of [lib/paginate], as the
    keys it spreads into the arguments of [findMany]. *)
Record Pagination : Type := mkPagination
  { cursor : option string;
    skip : nat;
    take : option Z }.

(** Modelled from the spec: the session accessor returns [{userId}]. *)
Record Session : Type := mkSession { userId : string }.

(** ** The store client *)

Module Prisma.

Inductive error : Type :=
| ForeignKeyViolation (field : string)
| UniqueViolation (field : string)
| RecordNotFound.

Section Rows.
Context {A : Type}.

(** [orderBy: { f: "desc" }], rows with equal keys keep their order. *)
Fixpoint insertDesc (f : A -> Z) (x : A) (l : list A) : list A :=
  match l with
  | [] => [x]
  | y :: t => if (f x <? f y)%Z then y :: insertDesc f x t else x :: y :: t
  end.

Fixpoint sortDesc (f : A -> Z) (l : list A) : list A :=
  match l with
  | [] => []
  | x :: t => insertDesc f x (sortDesc f t)
  end.

Fixpoint dropUntil (p : A -> bool) (l : list A) : list A :=
  match l with
  | [] => []
  | x :: t => if p x then x :: t else dropUntil p t
  end.

(** [cursor], [skip] and [take] applied to an ordered result: the
    traversal starts at the row the cursor names (none when no row has
    that key), leaves out [skip] rows and keeps [|take|] of them; a
    negative [take] traverses from the end. *)
Definition paginate (key : A -> string) (pg : Pagination) (l : list A)
  : list A :=
  let backwards :=
    match take pg with Some n => (n <? 0)%Z | None => false end in
  let dir := if backwards then rev l else l in
  let from :=
    match cursor pg with
    | Some c => dropUntil (fun x => String.eqb (key x) c) dir
    | None => dir
    end in
  let rest := skipn (skip pg) from in
  let page :=
    match take pg with
    | Some n => firstn (Z.abs_nat n) rest
    | None => rest
    end in
  if backwards then rev page else page.

Definition findMany (key : A -> string) (rows : list A)
           (where_ : A -> bool) (orderBy : option (A -> Z))
           (pg : Pagination) : list A :=
  let matching := filter where_ rows in
  let ordered :=
    match orderBy with
    | Some f => sortDesc f matching
    | None => matching
    end in
  paginate key pg ordered.

Fixpoint replaceFirst (p : A -> bool) (f : A -> A) (l : list A)
  : list A :=
  match l with
  | [] => []
  | x :: t => if p x then f x :: t else x :: replaceFirst p f t
  end.

Fixpoint removeFirst (p : A -> bool) (l : list A) : list A :=
  match l with
  | [] => []
  | x :: t => if p x then t else x :: removeFirst p t
  end.
End Rows.

Definition mem (x : string) (l : list string) : bool :=
  existsb (String.eqb x) l.

Definition hasId (i : string) (p : PostType.t) : bool :=
  String.eqb (PostType.id p) i.

Definition post_findUnique (s : Store) (i : string) : option PostType.t :=
  find (hasId i) (posts s).

Definition post_findMany (s : Store) (where_ : PostType.t -> bool)
           (pg : Pagination) : list PostType.t :=
  findMany PostType.id (posts s) where_ (Some PostType.createdAt) pg.

Definition comment_findMany (s : Store) (where_ : Comment.t -> bool)
           (pg : Pagination) : list Comment.t :=
  findMany Comment.id (comments s) where_ (Some Comment.createdAt) pg.

Definition postVote_findMany (s : Store) (where_ : PostVote.t -> bool)
  : list PostVote.t :=
  filter where_ (postVotes s).

Definition postVote_findUnique (s : Store) (u p : string)
  : option PostVote.t :=
  find (fun v => String.eqb (PostVote.userId v) u
                 && String.eqb (PostVote.postId v) p) (postVotes s).

Definition userSub_findMany (s : Store) (where_ : UserSub.t -> bool)
  : list UserSub.t :=
  filter where_ (userSubs s).

Definition withPosts (s : Store) (l : list PostType.t) : Store :=
  {| posts := l;
     postVotes := postVotes s;
     userSubs := userSubs s;
     comments := comments s;
     users := users s;
     subs := subs s |}.

(** [post.create]: the row gets its identifier and both timestamps from
    the store; the references to the creator and to the sub must
    resolve, and the identifier must be new. *)
Definition post_create (s : Store) (freshId : string) (now : Z)
           (creator sub : string) (input : PostInput)
  : error + (PostType.t * Store) :=
  if negb (mem creator (users s)) then inl (ForeignKeyViolation "creatorId")
  else if negb (mem sub (subs s)) then inl (ForeignKeyViolation "subName")
  else if existsb (hasId freshId) (posts s) then inl (UniqueViolation "id")
  else
    let row :=
      {| PostType.id := freshId;
         PostType.title := in_title input;
         PostType.body := in_body input;
         PostType.image :=
           match in_image input with
           | JS.Value v => Some v
           | _ => None
           end;
         PostType.creatorId := creator;
         PostType.subName := sub;
         PostType.createdAt := now;
         PostType.updatedAt := now |} in
    inr (row, withPosts s (posts s ++ [row])).

(** The [data] of an update: a property left out keeps the column. *)
Definition applyInput (input : PostInput) (stamp : Z) (p : PostType.t)
  : PostType.t :=
  {| PostType.id := PostType.id p;
     PostType.title := in_title input;
     PostType.body := in_body input;
     PostType.image :=
       match in_image input with
       | JS.Undefined => PostType.image p
       | JS.Null => None
       | JS.Value v => Some v
       end;
     PostType.creatorId := PostType.creatorId p;
     PostType.subName := PostType.subName p;
     PostType.createdAt := PostType.createdAt p;
     PostType.updatedAt := stamp |}.

Definition post_update (s : Store) (i : string) (input : PostInput)
           (stamp : Z) : error + (PostType.t * Store) :=
  match post_findUnique s i with
  | None => inl RecordNotFound
  | Some p =>
      inr (applyInput input stamp p,
           withPosts s (replaceFirst (hasId i) (applyInput input stamp)
                                     (posts s)))
  end.

(** A comment or a vote refers to the post [i]. *)
Definition referredTo (s : Store) (i : string) : bool :=
  existsb (fun c => String.eqb (Comment.postId c) i) (comments s)
  || existsb (fun v => String.eqb (PostVote.postId v) i) (postVotes s).

(** [post.delete]: the row must exist, and the store refuses to delete a
    post that a comment or a vote still refers to. *)
Definition post_delete (s : Store) (i : string)
  : error + (PostType.t * Store) :=
  match post_findUnique s i with
  | None => inl RecordNotFound
  | Some p =>
      if referredTo s i then inl (ForeignKeyViolation "postId")
      else inr (p, withPosts s (removeFirst (hasId i) (posts s)))
  end.

End Prisma.

(** ** Faults, outcomes and the resolver monad *)

Inductive Fault : Type :=
| UserInputError (msg : string)
| ApolloError (msg : string)
| AuthenticationError (msg : string)
| PrismaError (e : Prisma.error)
| TypeError.

Inductive Outcome (A : Type) : Type :=
| Returned (a : A)
| Thrown (f : Fault).
Arguments Returned {A} a.
Arguments Thrown {A} f.

(** The calls a resolver can issue to the store client. *)
Inductive Call : Type :=
| PostFindUnique
| PostFindMany
| PostCreate
| PostUpdate
| PostDelete
| PostVoteFindMany
| PostVoteFindUnique
| UserSubFindMany
| CommentFindMany.

Definition isWrite (c : Call) : bool :=
  match c with
  | PostCreate | PostUpdate | PostDelete => true
  | _ => false
  end.

Definition writes (tr : list Call) : nat := List.length (filter isWrite tr).

(** What running a resolver on a store gives: how it ended, the store it
    left, and the calls it issued, oldest first. *)
Record Run (A : Type) : Type := mkRun
  { outcome : Outcome A;
    final : Store;
    trace : list Call }.
Arguments mkRun {A} _ _ _.
Arguments outcome {A} _.
Arguments final {A} _.
Arguments trace {A} _.

Definition M (A : Type) : Type := Store -> Run A.

Definition ret {A : Type} (a : A) : M A :=
  fun s => mkRun (Returned a) s [].

Definition throw {A : Type} (f : Fault) : M A :=
  fun s => mkRun (Thrown f) s [].

Definition bind {A B : Type} (m : M A) (k : A -> M B) : M B :=
  fun s =>
    let r := m s in
    match outcome r with
    | Returned a =>
        let r' := k a (final r) in
        mkRun (outcome r') (final r') (trace r ++ trace r')
    | Thrown f => mkRun (Thrown f) (final r) (trace r)
    end.

(** [try { m } catch (e) { h e }] *)
Definition tryCatch {A : Type} (m : M A) (h : Fault -> M A) : M A :=
  fun s =>
    let r := m s in
    match outcome r with
    | Returned _ => r
    | Thrown f =>
        let r' := h f (final r) in
        mkRun (outcome r') (final r') (trace r ++ trace r')
    end.

Definition liftOutcome {A : Type} (o : Outcome A) : M A :=
  fun s => mkRun o s [].

Notation "x <- m ;; k" := (bind m (fun x => k))
  (at level 61, m at next level, right associativity).

(** A query: the store is read and left as it is. *)
Definition query {A : Type} (c : Call) (q : Store -> A) : M A :=
  fun s => mkRun (Returned (q s)) s [c].

(** A single-row write: it is applied as a whole or it fails and leaves
    the store as it was. *)
Definition command {A : Type} (c : Call)
           (op : Store -> Prisma.error + (A * Store)) : M A :=
  fun s =>
    match op s with
    | inl e => mkRun (Thrown (PrismaError e)) s [c]
    | inr (a, s') => mkRun (Returned a) s' [c]
    end.

(** ** Result objects *)

Module PaginatedPosts.
Record t : Type := mk { hasMore : bool; posts : list PostType.t }.
End PaginatedPosts.

Module PaginatedComments.
Record t : Type := mk { hasMore : bool; comments : list Comment.t }.
End PaginatedComments.

(** ** Regular expressions of the register validator *)

Module Regex.

Inductive t : Type :=
| Never
| Empty
| Class (p : ascii -> bool)
| Seq (r1 r2 : t)
| Alt (r1 r2 : t)
| Star (r : t).

(** [r+], [r?] and [r{lo,hi}] *)
Definition Plus (r : t) : t := Seq r (Star r).
Definition Opt (r : t) : t := Alt Empty r.

Fixpoint Power (n : nat) (r : t) : t :=
  match n with
  | O => Empty
  | S k => Seq r (Power k r)
  end.

Definition Repeat (lo hi : nat) (r : t) : t :=
  Seq (Power lo r) (Power (hi - lo) (Opt r)).

Fixpoint nullable (r : t) : bool :=
  match r with
  | Never => false
  | Empty => true
  | Class _ => false
  | Seq r1 r2 => nullable r1 && nullable r2
  | Alt r1 r2 => nullable r1 || nullable r2
  | Star _ => true
  end.

(** What is left of [r] once the character [c] has been read. *)
Fixpoint deriv (c : ascii) (r : t) : t :=
  match r with
  | Never => Never
  | Empty => Never
  | Class p => if p c then Empty else Never
  | Seq r1 r2 =>
      if nullable r1
      then Alt (Seq (deriv c r1) r2) (deriv c r2)
      else Seq (deriv c r1) r2
  | Alt r1 r2 => Alt (deriv c r1) (deriv c r2)
  | Star r1 => Seq (deriv c r1) (Star r1)
  end.

(** A match that starts at the head of [s]; with [toEnd] it has to use
    all of [s] (a trailing [$]), without it any prefix will do. *)
Fixpoint matchHere (toEnd : bool) (r : t) (s : list ascii) : bool :=
  match s with
  | [] => nullable r
  | c :: s' => (negb toEnd && nullable r) || matchHere toEnd (deriv c r) s'
  end.

(** A match that starts at any position of [s]. *)
Fixpoint matchAnywhere (toEnd : bool) (r : t) (s : list ascii) : bool :=
  matchHere toEnd r s
  || match s with
     | [] => false
     | _ :: s' => matchAnywhere toEnd r s'
     end.

(** A regular expression literal: the body and its two anchors. *)
Record literal : Type := mkLiteral
  { fromStart : bool;
    pattern : t;
    toEnd : bool }.

(** [re.test(s)] *)
Definition test (re : literal) (s : string) : bool :=
  let cs := list_ascii_of_string s in
  if fromStart re
  then matchHere (toEnd re) (pattern re) cs
  else matchAnywhere (toEnd re) (pattern re) cs.

Definition inRange (lo hi c : ascii) : bool :=
  (N_of_ascii lo <=? N_of_ascii c)%N && (N_of_ascii c <=? N_of_ascii hi)%N.

Definition isChar (x c : ascii) : bool := Ascii.eqb x c.

(** [[a-zA-Z0-9]] *)
Definition alnum (c : ascii) : bool :=
  inRange "a" "z" c || inRange "A" "Z" c || inRange "0" "9" c.

(** The strings a regular expression denotes. *)
Inductive lang : t -> list ascii -> Prop :=
| lang_Empty : lang Empty []
| lang_Class p c : p c = true -> lang (Class p) [c]
| lang_Seq r1 r2 s1 s2 :
    lang r1 s1 -> lang r2 s2 -> lang (Seq r1 r2) (s1 ++ s2)
| lang_Alt_l r1 r2 s : lang r1 s -> lang (Alt r1 r2) s
| lang_Alt_r r1 r2 s : lang r2 s -> lang (Alt r1 r2) s
| lang_Star_nil r : lang (Star r) []
| lang_Star_app r s1 s2 :
    lang r s1 -> lang (Star r) s2 -> lang (Star r) (s1 ++ s2).

End Regex.

(** ** The register validator *)

Record RegisterInput : Type := mkRegisterInput
  { email : string;
    password : string;
    username : string }.

(** [/^([a-zA-Z0-9_\.\-])+\@(([a-zA-Z0-9\-])+\.)+([a-zA-Z0-9]{2,4})+$/] *)
Definition emailRegex : Regex.literal :=
  let local := fun c => Regex.alnum c || Regex.isChar "_" c
                        || Regex.isChar "." c || Regex.isChar "-" c in
  let label := fun c => Regex.alnum c || Regex.isChar "-" c in
  {| Regex.fromStart := true;
     Regex.pattern :=
       Regex.Seq (Regex.Plus (Regex.Class local))
         (Regex.Seq (Regex.Class (Regex.isChar "@"))
            (Regex.Seq
               (Regex.Plus
                  (Regex.Seq (Regex.Plus (Regex.Class label))
                             (Regex.Class (Regex.isChar "."))))
               (Regex.Plus (Regex.Repeat 2 4 (Regex.Class Regex.alnum)))));
     Regex.toEnd := true |}.

(** [/[a-zA-Z0-9]{3,12}/] *)
Definition usernameRegex : Regex.literal :=
  {| Regex.fromStart := false;
     Regex.pattern := Regex.Repeat 3 12 (Regex.Class Regex.alnum);
     Regex.toEnd := false |}.

Definition validateRegister (input : RegisterInput) : option string :=
  if negb (Regex.test emailRegex (email input))
  then Some "incorrect email"
  else if negb (Regex.test usernameRegex (username input))
  then Some "username should be 3-12 characters"
  else if (String.length (password input) <? 4)%nat
  then Some "password must be at least 8 characters"
  else None.

(** A string with three alphanumeric characters in a row somewhere. *)
Definition hasAlnumRun (s : string) : Prop :=
  exists pre a b c post,
    list_ascii_of_string s = pre ++ a :: b :: c :: post
    /\ Regex.alnum a = true /\ Regex.alnum b = true
    /\ Regex.alnum c = true.

(** ** The helpers of [../lib], as the specification describes them *)

Module Lib.

(** Modelled from the spec: [lib/auth] is not among the sources.  The
    accessor returns the session of the request or nothing, and in its
    require-authentication mode signals a fault when there is none. *)
Definition Request : Type := option Session.

Definition getSession (req : Request) (required : bool)
  : Outcome (option Session) :=
  match req with
  | Some se => Returned (Some se)
  | None =>
      if required
      then Thrown (AuthenticationError "not authenticated")
      else Returned None
  end.

(** Modelled from the spec: [lib/paginate] is not among the sources.  The
    directive asks for one record more than the requested size, starting
    after the cursor when there is one. *)
Definition getPaginationData (input : PaginationInput) : Pagination :=
  {| cursor := in_cursor input;
     skip := match in_cursor input with Some _ => 1 | None => 0 end;
     take := Some (in_take input + 1)%Z |}.

(** Modelled from the spec: [lib/validate]'s [validatePost] is not among
    the sources.  Title and body have to be non-empty. *)
Definition validatePost (input : PostInput) : option string :=
  if negb (JS.truthy (in_title input)) then Some "title cannot be empty"
  else if negb (JS.truthy (in_body input)) then Some "body cannot be empty"
  else None.

End Lib.

(** ** A small store used in the examples *)

Module Sample.

Definition post (i sub creator : string) (at_ : Z) : PostType.t :=
  {| PostType.id := i;
     PostType.title := "title " ++ i;
     PostType.body := "body";
     PostType.image := None;
     PostType.creatorId := creator;
     PostType.subName := sub;
     PostType.createdAt := at_;
     PostType.updatedAt := at_ |}.

Definition p1 : PostType.t := post "p1" "rocq" "alice" 10.
Definition p2 : PostType.t := post "p2" "ocaml" "bob" 20.
Definition p3 : PostType.t := post "p3" "rocq" "bob" 30.

Definition store : Store :=
  {| posts := [p1; p2; p3];
     postVotes :=
       [ PostVote.mk "alice" "p1" 1;
         PostVote.mk "bob" "p1" 1;
         PostVote.mk "carol" "p1" (-1);
         PostVote.mk "alice" "p3" (-1) ];
     userSubs := [ UserSub.mk "alice" "rocq"; UserSub.mk "bob" "ocaml" ];
     comments :=
       [ Comment.mk "c1" "p1" 11; Comment.mk "c2" "p1" 12;
         Comment.mk "c3" "p1" 13; Comment.mk "c4" "p2" 21 ];
     users := ["alice"; "bob"; "carol"];
     subs := ["rocq"; "ocaml"] |}.

(** The same store without the comment on [p2], which nothing then
    refers to. *)
Definition quiet : Store :=
  {| posts := posts store;
     postVotes := postVotes store;
     userSubs := userSubs store;
     comments :=
       [ Comment.mk "c1" "p1" 11; Comment.mk "c2" "p1" 12;
         Comment.mk "c3" "p1" 13 ];
     users := users store;
     subs := subs store |}.

Definition alice : Lib.Request := Some (mkSession "alice").
Definition bob : Lib.Request := Some (mkSession "bob").
Definition anonymous : Lib.Request := None.

Definition firstPage (n : Z) : PaginationInput :=
  {| in_cursor := None; in_take := n |}.

Definition goodInput : PostInput :=
  {| in_title := "hello"; in_body := "world"; in_image := JS.Undefined |}.

Definition badInput : PostInput :=
  {| in_title := ""; in_body := "world"; in_image := JS.Undefined |}.

End Sample.

(** ** The error map of the web client

    [toErrorMap] turns the field errors of a response into an object from
    field name to message. *)

Module FieldError.
Record t : Type := mk
  { field : string;
    message : string }.
End FieldError.

(** A plain object holding strings, as the list of its own properties
    (the order in which they are enumerated is not modelled). *)
Module JSObject.

Definition t : Type := list (string * string).

(** The own property [k], if there is one. *)
Fixpoint getOwn (o : t) (k : string) : option string :=
  match o with
  | [] => None
  | (k', v) :: rest => if String.eqb k' k then Some v else getOwn rest k
  end.

Fixpoint setOwn (o : t) (k v : string) : t :=
  match o with
  | [] => [(k, v)]
  | (k', v') :: rest =>
      if String.eqb k' k then (k', v) :: rest else (k', v') :: setOwn rest k v
  end.

(** [o[k] = v] for a string [v]: the inherited accessor [__proto__] takes
    the assignment and ignores a value that is neither an object nor
    [null]; every other key becomes, or stays, an own property. *)
Definition set (o : t) (k v : string) : t :=
  if String.eqb k "__proto__" then o else setOwn o k v.

Definition keys (o : t) : list string := map fst o.

End JSObject.

Definition toErrorMap (errors : list FieldError.t) : JSObject.t :=
  fold_left
    (fun map error =>
       JSObject.set map (FieldError.field error) (FieldError.message error))
    errors [].

(** The last error of a list that is about the field [f]. *)
Definition lastErrorFor (f : string) (errors : list FieldError.t)
  : option FieldError.t :=
  find (fun e => String.eqb (FieldError.field e) f) (rev errors).

(** ** Notions used to state further properties *)

(** A list in descending order of the key [f]. *)
Fixpoint descending {A : Type} (f : A -> Z) (l : list A) : Prop :=
  match l with
  | [] => True
  | x :: t => Forall (fun y => (f y <= f x)%Z) t /\ descending f t
  end.

(** [m] is a run of consecutive elements of [l]. *)
Definition segmentOf {A : Type} (m l : list A) : Prop :=
  exists pre post, l = pre ++ m ++ post.

(** The character classes of [emailRegex]: the local part, a label of the
    domain, and the domain with the dots between its labels. *)
Definition emailLocalChar (c : ascii) : bool :=
  Regex.alnum c || Regex.isChar "_" c || Regex.isChar "." c
  || Regex.isChar "-" c.

Definition emailLabelChar (c : ascii) : bool :=
  Regex.alnum c || Regex.isChar "-" c.

Definition emailHostChar (c : ascii) : bool :=
  emailLabelChar c || Regex.isChar "." c.

Definition allChars (p : ascii -> bool) (s : list ascii) : Prop :=
  Forall (fun c => p c = true) s.

(** The identifiers of the stored posts are pairwise different. *)
Definition uniquePostIds (s : Store) : Prop :=
  NoDup (map PostType.id (posts s)).

(** ** The resolvers

    The three helpers the file imports from [../lib] are parameters of the
    development, as is the request object they inspect. *)

Section Resolvers.

Variable Request : Type.
Variable getSession : Request -> bool -> Outcome (option Session).
Variable getPaginationData : PaginationInput -> Pagination.
Variable validatePost : PostInput -> option string.

(** [session?.userId], when truthy. *)
Definition sessionUser (session : option Session) : option string :=
  match session with
  | Some se => if JS.truthy (userId se) then Some (userId se) else None
  | None => None
  end.

(** [const { userId } = session!]: destructuring [null] throws. *)
Definition destructure (session : option Session) : M string :=
  match session with
  | Some se => ret (userId se)
  | None => throw TypeError
  end.

(** *** Fields of [Post] *)

Definition Post_votes (parent : PostType.t) : M Z :=
  voteArr <- query PostVoteFindMany
               (fun s => Prisma.postVote_findMany s
                           (fun v => String.eqb (PostVote.postId v)
                                                (PostType.id parent))) ;;
  ret (fold_left (fun prev curr => (prev + PostVote.value curr)%Z)
                 voteArr 0%Z).

Definition Post_comments (parent : PostType.t) (input : PaginationInput)
  : M PaginatedComments.t :=
  let pagination := getPaginationData input in
  comments <- query CommentFindMany
                (fun s => Prisma.comment_findMany s
                            (fun c => String.eqb (Comment.postId c)
                                                 (PostType.id parent))
                            pagination) ;;
  ret {| PaginatedComments.hasMore :=
           (Z.of_nat (List.length comments) =? in_take input + 1)%Z;
         PaginatedComments.comments :=
           JS.slice0 comments (in_take input) |}.

Definition Post_voteStatus (parent : PostType.t) (req : Request) : M Z :=
  session <- liftOutcome (getSession req false) ;;
  match sessionUser session with
  | None => ret 0%Z
  | Some uid =>
      vote <- query PostVoteFindUnique
                (fun s => Prisma.postVote_findUnique s uid
                                                     (PostType.id parent)) ;;
      match vote with
      | None => ret 0%Z
      | Some v => ret (PostVote.value v)
      end
  end.

(** *** Mutations *)

Definition Mutation_createPost (subName : string) (input : PostInput)
           (req : Request) (freshId : string) (now : Z) : M PostType.t :=
  session <- liftOutcome (getSession req true) ;;
  uid <- destructure session ;;
  _ <- match validatePost input with
       | Some error =>
           if JS.truthy error then throw (UserInputError error) else ret tt
       | None => ret tt
       end ;;
  tryCatch
    (post <- command PostCreate
               (fun s => Prisma.post_create s freshId now uid subName
                                            input) ;;
     ret post)
    (fun _ => throw (ApolloError "sub not found")).

Definition Mutation_editPost (postId : string) (input : PostInput)
           (req : Request) (now : Z) : M PostType.t :=
  session <- liftOutcome (getSession req true) ;;
  uid <- destructure session ;;
  postExists <- query PostFindUnique
                  (fun s => Prisma.post_findUnique s postId) ;;
  match postExists with
  | None => throw (ApolloError "post not found")
  | Some found =>
      if negb (String.eqb (PostType.creatorId found) uid)
      then throw (ApolloError "cannot update post")
      else
        post <- command PostUpdate
                  (fun s => Prisma.post_update s postId input now) ;;
        ret post
  end.

Definition Mutation_deletePost (postId : string) (req : Request)
  : M bool :=
  session <- liftOutcome (getSession req true) ;;
  uid <- destructure session ;;
  postExists <- query PostFindUnique
                  (fun s => Prisma.post_findUnique s postId) ;;
  match postExists with
  | None => throw (ApolloError "post not found")
  | Some found =>
      if negb (String.eqb (PostType.creatorId found) uid)
      then throw (ApolloError "cannot update post")
      else
        _ <- command PostDelete (fun s => Prisma.post_delete s postId) ;;
        ret true
  end.

(** *** Queries *)

Definition Query_post (id : string) : M (option PostType.t) :=
  query PostFindUnique (fun s => Prisma.post_findUnique s id).

Definition Query_feed (input : PaginationInput) (req : Request)
  : M PaginatedPosts.t :=
  session <- liftOutcome (getSession req false) ;;
  let pagination := getPaginationData input in
  posts <-
    match sessionUser session with
    | Some uid =>
        subs <- query UserSubFindMany
                  (fun s => Prisma.userSub_findMany s
                              (fun r => String.eqb (UserSub.userId r)
                                                   uid)) ;;
        let subNames := map UserSub.subName subs in
        query PostFindMany
          (fun s => Prisma.post_findMany s
                      (fun p => Prisma.mem (PostType.subName p) subNames)
                      pagination)
    | None =>
        query PostFindMany
          (fun s => Prisma.post_findMany s (fun _ => true) pagination)
    end ;;
  ret {| PaginatedPosts.hasMore :=
           (Z.of_nat (List.length posts) =? in_take input + 1)%Z;
         PaginatedPosts.posts := JS.slice0 posts (in_take input) |}.

(** *** Notions used to state the properties *)

(** The directive without its limit on the number of rows: what the fetch
    would give if it were not cut off. *)
Definition unbounded (pg : Pagination) : Pagination :=
  {| cursor := cursor pg; skip := skip pg; take := None |}.

(** The sub names a user is subscribed to. *)
Definition subscriptions (s : Store) (uid : string) : list string :=
  map UserSub.subName
      (filter (fun r => String.eqb (UserSub.userId r) uid) (userSubs s)).

(** The restriction the feed puts on posts for a session. *)
Definition feedWhere (s : Store) (session : option Session)
  : PostType.t -> bool :=
  match sessionUser session with
  | Some uid => fun p => Prisma.mem (PostType.subName p) (subscriptions s uid)
  | None => fun _ => true
  end.

Definition commentsWhere (parent : PostType.t) : Comment.t -> bool :=
  fun c => String.eqb (Comment.postId c) (PostType.id parent).

(** The lookahead rule for a requested size [n]: [fetched] is what the
    store returned, [eligible] what it would return without a limit. *)
Definition LookaheadPage {A : Type} (n : Z) (fetched eligible page : list A)
           (hasMore : bool) : Prop :=
  (hasMore = true <-> Z.of_nat (List.length fetched) = (n + 1)%Z)
  /\ page = firstn (Z.to_nat n) fetched
  /\ ((n + 1 <= Z.of_nat (List.length eligible))%Z ->
      Z.of_nat (List.length page) = n /\ hasMore = true)
  /\ (Z.of_nat (List.length eligible) = n ->
      hasMore = false /\ page = eligible).

(** The vote aggregate as the specification words it: the sum of the
    values of the votes whose [postId] is the post's. *)
Definition spec_voteAggregate (s : Store) (P : PostType.t) : Z :=
  fold_right Z.add 0%Z
    (map PostVote.value
         (filter (fun vote => String.eqb (PostVote.postId vote)
                                         (PostType.id P))
                 (postVotes s))).

Definition voteKey (v : PostVote.t) : string * string :=
  (PostVote.userId v, PostVote.postId v).

(** At most one vote per user and post. *)
Definition uniqueVotes (s : Store) : Prop :=
  NoDup (map voteKey (postVotes s)).

(** Running a resolver [n] times in a row, each run on the store the
    previous one left. *)
Fixpoint replay {A : Type} (n : nat) (m : M A) (s : Store)
  : list (Outcome A) :=
  match n with
  | O => []
  | S k => let r := m s in outcome r :: replay k m (final r)
  end.

(** ** Properties *)

Ltac run :=
  unfold Query_feed, Post_votes, Post_comments, Post_voteStatus,
    Mutation_createPost, Mutation_editPost, Mutation_deletePost,
    destructure, bind, tryCatch, liftOutcome, query, command, ret, throw;
  simpl.

(** *** Lists *)

Lemma slice0_nonneg (A : Type) (l : list A) (e : Z) :
  (0 <= e)%Z -> JS.slice0 l e = firstn (Z.to_nat e) l.
Proof.
  intro He. unfold JS.slice0.
  destruct (e <? 0)%Z eqn:Hneg; [apply Z.ltb_lt in Hneg; lia|].
  destruct (Z.le_gt_cases e (Z.of_nat (List.length l))) as [Hle | Hgt].
  - now rewrite Z.min_l.
  - rewrite Z.min_r by lia. rewrite Nat2Z.id.
    rewrite firstn_all. symmetry. apply firstn_all2. lia.
Qed.

Lemma firstn_incl (A : Type) (n : nat) (l : list A) (x : A) :
  In x (firstn n l) -> In x l.
Proof.
  intro Hin. rewrite <- (firstn_skipn n l). apply in_or_app. now left.
Qed.

Lemma skipn_incl (A : Type) (n : nat) (l : list A) (x : A) :
  In x (skipn n l) -> In x l.
Proof.
  intro Hin. rewrite <- (firstn_skipn n l). apply in_or_app. now right.
Qed.

Lemma slice0_incl (A : Type) (l : list A) (e : Z) (x : A) :
  In x (JS.slice0 l e) -> In x l.
Proof. unfold JS.slice0. apply firstn_incl. Qed.

Lemma insertDesc_In (A : Type) (f : A -> Z) (x y : A) (l : list A) :
  In x (Prisma.insertDesc f y l) <-> x = y \/ In x l.
Proof.
  induction l as [| z t IH]; simpl.
  - intuition congruence.
  - destruct (f y <? f z)%Z; simpl; [|intuition congruence].
    rewrite IH. intuition congruence.
Qed.

Lemma sortDesc_In (A : Type) (f : A -> Z) (x : A) (l : list A) :
  In x (Prisma.sortDesc f l) <-> In x l.
Proof.
  induction l as [| y t IH]; simpl; [tauto|].
  rewrite insertDesc_In, IH. intuition congruence.
Qed.

Lemma dropUntil_incl (A : Type) (p : A -> bool) (x : A) (l : list A) :
  In x (Prisma.dropUntil p l) -> In x l.
Proof.
  induction l as [| y t IH]; simpl; [tauto|].
  destruct (p y); simpl; tauto.
Qed.

Lemma paginate_incl (A : Type) (key : A -> string) (pg : Pagination)
      (x : A) (l : list A) :
  In x (Prisma.paginate key pg l) -> In x l.
Proof.
  unfold Prisma.paginate.
  set (backwards := match take pg with
                    | Some n => (n <? 0)%Z
                    | None => false
                    end).
  set (dir := if backwards then rev l else l).
  assert (Hdir : forall y, In y dir -> In y l).
  { intros y. unfold dir. destruct backwards; [rewrite <- in_rev|]; auto. }
  set (from := match cursor pg with
               | Some c => Prisma.dropUntil _ dir
               | None => dir
               end).
  assert (Hfrom : forall y, In y from -> In y dir).
  { intros y. unfold from. destruct (cursor pg); [apply dropUntil_incl|];
      auto. }
  intro Hin. apply Hdir, Hfrom.
  assert (Hpage : In x match take pg with
                       | Some n => firstn (Z.abs_nat n)
                                          (skipn (skip pg) from)
                       | None => skipn (skip pg) from
                       end).
  { destruct backwards; [now apply in_rev|assumption]. }
  destruct (take pg); [apply firstn_incl in Hpage|];
    now apply (skipn_incl _ (skip pg)).
Qed.

Lemma findMany_sound (A : Type) (key : A -> string) (rows : list A)
      (w : A -> bool) (ob : option (A -> Z)) (pg : Pagination) (x : A) :
  In x (Prisma.findMany key rows w ob pg) -> In x rows /\ w x = true.
Proof.
  unfold Prisma.findMany. intro Hin. apply paginate_incl in Hin.
  apply filter_In. destruct ob; [now apply sortDesc_In in Hin|assumption].
Qed.

Lemma paginate_limit (A : Type) (key : A -> string) (pg : Pagination)
      (n : Z) (l : list A) :
  take pg = Some n -> (0 <= n)%Z ->
  Prisma.paginate key pg l
  = firstn (Z.to_nat n) (Prisma.paginate key (unbounded pg) l).
Proof.
  intros Htake Hn. unfold Prisma.paginate, unbounded. simpl.
  rewrite Htake.
  destruct (n <? 0)%Z eqn:Hneg; [apply Z.ltb_lt in Hneg; lia|].
  now rewrite Zabs2Nat.abs_nat_nonneg.
Qed.

Lemma findMany_limit (A : Type) (key : A -> string) (rows : list A)
      (w : A -> bool) (ob : option (A -> Z)) (pg : Pagination) (n : Z) :
  take pg = Some n -> (0 <= n)%Z ->
  Prisma.findMany key rows w ob pg
  = firstn (Z.to_nat n) (Prisma.findMany key rows w ob (unbounded pg)).
Proof. intros. unfold Prisma.findMany. now apply paginate_limit. Qed.

Lemma lookahead_rule (A : Type) (n : Z) (eligible : list A) :
  (0 < n)%Z ->
  let fetched := firstn (Z.to_nat (n + 1)) eligible in
  LookaheadPage n fetched eligible (JS.slice0 fetched n)
                (Z.of_nat (List.length fetched) =? n + 1)%Z.
Proof.
  intros Hn fetched. unfold LookaheadPage.
  rewrite slice0_nonneg by lia.
  assert (Hlen : List.length fetched
                 = Nat.min (Z.to_nat (n + 1)) (List.length eligible))
    by apply length_firstn.
  split; [apply Z.eqb_eq|]. split; [reflexivity|]. split.
  - intro Hmany. split.
    + rewrite length_firstn. lia.
    + apply Z.eqb_eq. lia.
  - intro Hexact. split.
    + apply Z.eqb_neq. lia.
    + unfold fetched. rewrite firstn_firstn.
      apply firstn_all2. lia.
Qed.

(** *** Pagination *)

(** C1.  With a positive requested size, [hasMore] is true exactly when
    the fetch returned [take + 1] records, and the page is the fetched
    list cut to its first [take] records; when the store holds at least
    [take + 1] eligible records the page has [take] records and [hasMore]
    is true, when it holds exactly [take] of them [hasMore] is false.
    This holds for the feed and for the comments of a post. *)
Theorem pagination_lookahead (input : PaginationInput) :
  (0 < in_take input)%Z ->
  take (getPaginationData input) = Some (in_take input + 1)%Z ->
  (forall req session s,
      getSession req false = Returned session ->
      exists page,
        outcome (Query_feed input req s) = Returned page
        /\ LookaheadPage (in_take input)
             (Prisma.post_findMany s (feedWhere s session)
                                   (getPaginationData input))
             (Prisma.post_findMany s (feedWhere s session)
                                   (unbounded (getPaginationData input)))
             (PaginatedPosts.posts page) (PaginatedPosts.hasMore page))
  /\ (forall parent s,
         exists page,
           outcome (Post_comments parent input s) = Returned page
           /\ LookaheadPage (in_take input)
                (Prisma.comment_findMany s (commentsWhere parent)
                                         (getPaginationData input))
                (Prisma.comment_findMany s (commentsWhere parent)
                   (unbounded (getPaginationData input)))
                (PaginatedComments.comments page)
                (PaginatedComments.hasMore page)).
Proof.
  intros Hpos Htake. split.
  - intros req session s Hsession. run. rewrite Hsession. simpl.
    unfold feedWhere, subscriptions, Prisma.userSub_findMany.
    destruct (sessionUser session) as [uid |]; simpl;
      eexists; (split; [reflexivity|]); simpl;
      unfold Prisma.post_findMany;
      rewrite (findMany_limit _ _ _ _ _ _ (in_take input + 1)%Z)
        by (assumption || lia);
      apply lookahead_rule; assumption.
  - intros parent s. run. eexists. split; [reflexivity|]. simpl.
    unfold Prisma.comment_findMany, commentsWhere.
    rewrite (findMany_limit _ _ _ _ _ _ (in_take input + 1)%Z)
      by (assumption || lia).
    apply lookahead_rule; assumption.
Qed.

(** *** Vote aggregate *)

Lemma reduce_sum (l : list PostVote.t) (acc : Z) :
  fold_left (fun prev curr => (prev + PostVote.value curr)%Z) l acc
  = (acc + fold_right Z.add 0 (map PostVote.value l))%Z.
Proof.
  revert acc. induction l as [| v t IH]; intro acc; simpl; [lia|].
  rewrite IH. lia.
Qed.

(** C2.  The [votes] field of a post is the sum of the values of the
    stored votes whose [postId] is the post's; it is computed from the
    vote table at each read, which is left as it was (the store has no
    column holding an aggregate). *)
Theorem votes_is_sum_of_values (P : PostType.t) (s : Store) :
  outcome (Post_votes P s) = Returned (spec_voteAggregate s P)
  /\ final (Post_votes P s) = s
  /\ trace (Post_votes P s) = [PostVoteFindMany].
Proof.
  run. unfold spec_voteAggregate, Prisma.postVote_findMany.
  rewrite reduce_sum. repeat split.
Qed.

(** *** Subscription filter of the feed *)

(** C3.  For an authenticated session every post of the returned page
    has a sub name the user is subscribed to; for an anonymous session
    the fetch ranges over all posts, without restriction. *)
Theorem feed_subscription_filter (input : PaginationInput) (req : Request)
        (session : option Session) (s : Store) :
  getSession req false = Returned session ->
  exists page,
    outcome (Query_feed input req s) = Returned page
    /\ (forall uid, sessionUser session = Some uid ->
        forall p, In p (PaginatedPosts.posts page) ->
                  In p (posts s)
                  /\ In (PostType.subName p) (subscriptions s uid))
    /\ (sessionUser session = None ->
        let fetched :=
          Prisma.paginate PostType.id (getPaginationData input)
            (Prisma.sortDesc PostType.createdAt (posts s)) in
        PaginatedPosts.posts page = JS.slice0 fetched (in_take input)
        /\ PaginatedPosts.hasMore page
           = (Z.of_nat (List.length fetched) =? in_take input + 1)%Z
        /\ trace (Query_feed input req s) = [PostFindMany]).
Proof.
  intro Hsession. run. rewrite Hsession. simpl.
  destruct (sessionUser session) as [uid |]; simpl;
    eexists; (split; [reflexivity|]); simpl; split;
    try discriminate.
  - intros uid' Huid p Hin. injection Huid as <-.
    apply slice0_incl in Hin.
    apply findMany_sound in Hin. destruct Hin as [Hrow Hsub].
    split; [assumption|].
    unfold Prisma.mem in Hsub. apply existsb_exists in Hsub.
    destruct Hsub as [name [Hname Heq]].
    apply String.eqb_eq in Heq. now subst.
  - intros _.
    assert (Hall : filter (fun _ : PostType.t => true) (posts s) = posts s).
    { induction (posts s) as [| x t IH]; simpl; [|rewrite IH];
        reflexivity. }
    unfold Prisma.post_findMany, Prisma.findMany. rewrite Hall.
    repeat split.
Qed.

(** *** Writes *)


Lemma feed_leaves_store (input : PaginationInput) (req : Request)
      (s : Store) :
  final (Query_feed input req s) = s.
Proof.
  run. destruct (getSession req false) as [session | f]; simpl; auto.
  destruct (sessionUser session); reflexivity.
Qed.

(** C8.  The feed issues no write and leaves the store as it was, so
    that evaluating it any number of times in a row, for the same
    session and input, gives the same output each time. *)
Theorem feed_read_only_idempotent (input : PaginationInput)
        (req : Request) (s : Store) :
  final (Query_feed input req s) = s
  /\ writes (trace (Query_feed input req s)) = 0
  /\ forall n, replay n (Query_feed input req) s
               = repeat (outcome (Query_feed input req s)) n.
Proof.
  split; [apply feed_leaves_store|]. split.
  - run. destruct (getSession req false) as [session | f]; simpl; auto.
    destruct (sessionUser session); reflexivity.
  - induction n as [| n IH]; simpl; [reflexivity|].
    rewrite feed_leaves_store. now rewrite IH.
Qed.

(** *** Guards of the mutations *)



(** C6.  [createPost] checks in this order and stops at the first
    failure: a fault of the session accessor is the fault of the
    mutation; then a message of the validator is raised as an input
    validation fault; then any failure of the store is reported as
    "sub not found"; otherwise the created post is returned. *)
Theorem createPost_order (subName : string) (input : PostInput)
        (req : Request) (freshId : string) (now : Z) (s : Store) :
  let create := Mutation_createPost subName input req freshId now s in
  (forall f, getSession req true = Thrown f ->
             outcome create = Thrown f /\ trace create = [])
  /\ (forall se,
         getSession req true = Returned (Some se) ->
         (forall msg,
             validatePost input = Some msg -> JS.truthy msg = true ->
             outcome create = Thrown (UserInputError msg)
             /\ trace create = [])
         /\ ((forall msg, validatePost input = Some msg ->
                          JS.truthy msg = false) ->
             (forall e,
                 Prisma.post_create s freshId now (userId se) subName input
                 = inl e ->
                 outcome create = Thrown (ApolloError "sub not found")
                 /\ final create = s)
             /\ (forall post s',
                    Prisma.post_create s freshId now (userId se) subName
                                       input
                    = inr (post, s') ->
                    outcome create = Returned post
                    /\ final create = s'
                    /\ trace create = [PostCreate]))).
Proof.
  intro create. subst create. split.
  - intros f Hsession. run. rewrite Hsession. simpl. auto.
  - intros se Hsession. split.
    + intros msg Hmsg Htruthy. run. rewrite Hsession. simpl.
      rewrite Hmsg, Htruthy. simpl. auto.
    + intro Hvalid.
      assert (Hpass : forall st,
                 outcome
                   (match validatePost input with
                    | Some error =>
                        if JS.truthy error
                        then throw (UserInputError error)
                        else ret tt
                    | None => ret tt
                    end st) = Returned tt
                 /\ final
                      (match validatePost input with
                       | Some error =>
                           if JS.truthy error
                           then throw (UserInputError error)
                           else ret tt
                       | None => ret tt
                       end st) = st
                 /\ trace
                      (match validatePost input with
                       | Some error =>
                           if JS.truthy error
                           then throw (UserInputError error)
                           else ret tt
                       | None => ret tt
                       end st) = []).
      { intro st. destruct (validatePost input) as [msg |];
          [rewrite (Hvalid msg eq_refl)|]; repeat split. }
      split.
      * intros e Hfail. unfold Mutation_createPost, bind, liftOutcome.
        simpl. rewrite Hsession. simpl.
        destruct (Hpass s) as [Ho [Hf Ht]]. rewrite Ho, Hf.
        unfold tryCatch, bind, command. simpl. rewrite Hfail. simpl.
        auto.
      * intros post s' Hdone. unfold Mutation_createPost, bind, liftOutcome.
        simpl. rewrite Hsession. simpl.
        destruct (Hpass s) as [Ho [Hf Ht]]. rewrite Ho, Hf, Ht.
        unfold tryCatch, bind, command. simpl. rewrite Hdone. simpl.
        auto.
Qed.

(** *** Vote status *)

Lemma find_unique_vote (l : list PostVote.t) (v : PostVote.t)
      (u p : string) :
  NoDup (map voteKey l) -> In v l ->
  PostVote.userId v = u -> PostVote.postId v = p ->
  find (fun x => String.eqb (PostVote.userId x) u
                 && String.eqb (PostVote.postId x) p) l = Some v.
Proof.
  intros Hnodup Hin Hu Hp. induction l as [| a t IH]; simpl in *;
    [contradiction|].
  inversion Hnodup as [| k ks Hfresh Hrest]; subst k ks.
  destruct (String.eqb (PostVote.userId a) u
            && String.eqb (PostVote.postId a) p) eqn:Ha.
  - apply andb_true_iff in Ha. destruct Ha as [Hau Hap].
    apply String.eqb_eq in Hau. apply String.eqb_eq in Hap.
    destruct Hin as [-> | Hin]; [reflexivity|].
    exfalso. apply Hfresh. apply in_map_iff. exists v.
    split; [|assumption]. unfold voteKey. congruence.
  - destruct Hin as [-> | Hin].
    + rewrite Hu, Hp, !String.eqb_refl in Ha. discriminate.
    + now apply IH.
Qed.

(** C5.  When every stored vote is [-1] or [+1], the vote status of a
    post for a request is [-1], [0] or [1]; it is [0] for an anonymous
    request and when the user has no vote on the post, and otherwise it
    is the value of the user's one vote on the post. *)
Theorem voteStatus_spec (P : PostType.t) (req : Request)
        (session : option Session) (s : Store) :
  getSession req false = Returned session ->
  (forall v, In v (postVotes s) ->
             PostVote.value v = (-1)%Z \/ PostVote.value v = 1%Z) ->
  exists status,
    outcome (Post_voteStatus P req s) = Returned status
    /\ (status = (-1)%Z \/ status = 0%Z \/ status = 1%Z)
    /\ (sessionUser session = None -> status = 0%Z)
    /\ (forall U, sessionUser session = Some U ->
                  (forall v, In v (postVotes s) ->
                             voteKey v <> (U, PostType.id P)) ->
                  status = 0%Z)
    /\ (forall U v, sessionUser session = Some U ->
                    uniqueVotes s ->
                    In v (postVotes s) ->
                    voteKey v = (U, PostType.id P) ->
                    status = PostVote.value v).
Proof.
  intros Hsession Hrange. run. rewrite Hsession. simpl.
  destruct (sessionUser session) as [uid |]; simpl.
  - unfold Prisma.postVote_findUnique.
    destruct (find _ (postVotes s)) as [vote |] eqn:Hfind; simpl;
      eexists; (split; [reflexivity|]).
    + pose proof (find_some _ _ Hfind) as [Hin Hkey].
      split; [destruct (Hrange vote Hin); auto|].
      split; [discriminate|]. split.
      * intros U HU Hnone. injection HU as <-. exfalso.
        apply (Hnone vote Hin).
        apply andb_true_iff in Hkey. destruct Hkey as [Hu Hp].
        apply String.eqb_eq in Hu. apply String.eqb_eq in Hp.
        unfold voteKey. congruence.
      * intros U v HU Huniq Hv Hk. injection HU as <-.
        unfold voteKey in Hk. injection Hk as Hu Hp.
        rewrite (find_unique_vote _ v uid (PostType.id P) Huniq Hv Hu Hp)
          in Hfind.
        now injection Hfind as <-.
    + split; [auto|]. split; [discriminate|]. split; [reflexivity|].
      intros U v HU Huniq Hv Hk. injection HU as <-.
      unfold voteKey in Hk. injection Hk as Hu Hp.
      rewrite (find_unique_vote _ v uid (PostType.id P) Huniq Hv Hu Hp)
        in Hfind.
      discriminate.
  - eexists. split; [reflexivity|]. split; [auto|].
    split; [reflexivity|]. split; discriminate.
Qed.

(** *** Order and extent of a page *)

Lemma segmentOf_refl (A : Type) (l : list A) : segmentOf l l.
Proof. exists [], []. simpl. now rewrite app_nil_r. Qed.

Lemma segmentOf_trans (A : Type) (a b c : list A) :
  segmentOf a b -> segmentOf b c -> segmentOf a c.
Proof.
  intros [p1 [q1 ->]] [p2 [q2 ->]]. exists (p2 ++ p1), (q1 ++ q2).
  now rewrite <- !app_assoc.
Qed.

Lemma segmentOf_firstn (A : Type) (n : nat) (l : list A) :
  segmentOf (firstn n l) l.
Proof. exists [], (skipn n l). simpl. now rewrite firstn_skipn. Qed.

Lemma segmentOf_skipn (A : Type) (n : nat) (l : list A) :
  segmentOf (skipn n l) l.
Proof.
  exists (firstn n l), []. now rewrite app_nil_r, firstn_skipn.
Qed.

Lemma segmentOf_dropUntil (A : Type) (p : A -> bool) (l : list A) :
  segmentOf (Prisma.dropUntil p l) l.
Proof.
  induction l as [| x t [pre [post IH]]]; simpl.
  - apply segmentOf_refl.
  - destruct (p x).
    + apply segmentOf_refl.
    + exists (x :: pre), post. simpl. now rewrite <- IH.
Qed.

Lemma segmentOf_rev (A : Type) (m l : list A) :
  segmentOf m l -> segmentOf (rev m) (rev l).
Proof.
  intros [pre [post ->]]. exists (rev post), (rev pre).
  now rewrite !rev_app_distr, app_assoc.
Qed.

Lemma segmentOf_incl (A : Type) (m l : list A) (x : A) :
  segmentOf m l -> In x m -> In x l.
Proof.
  intros [pre [post ->]] Hin. apply in_or_app. right.
  apply in_or_app. now left.
Qed.

Lemma segmentOf_length (A : Type) (m l : list A) :
  segmentOf m l -> List.length m <= List.length l.
Proof. intros [pre [post ->]]. rewrite !length_app. lia. Qed.

(** Whatever the cursor, the skip and the limit, the rows a fetch returns
    stand next to each other in the ordered result. *)
Lemma paginate_segment (A : Type) (key : A -> string) (pg : Pagination)
      (l : list A) :
  segmentOf (Prisma.paginate key pg l) l.
Proof.
  unfold Prisma.paginate.
  set (start := fun d : list A =>
                  match cursor pg with
                  | Some c => Prisma.dropUntil
                                (fun x => String.eqb (key x) c) d
                  | None => d
                  end).
  assert (Hstart : forall d, segmentOf (start d) d).
  { intro d. unfold start. destruct (cursor pg);
      [apply segmentOf_dropUntil | apply segmentOf_refl]. }
  assert (Hpage : forall d,
             segmentOf match take pg with
                       | Some n => firstn (Z.abs_nat n)
                                          (skipn (skip pg) (start d))
                       | None => skipn (skip pg) (start d)
                       end d).
  { intro d. apply segmentOf_trans with (start d); [|apply Hstart].
    destruct (take pg).
    - apply segmentOf_trans with (skipn (skip pg) (start d));
        [apply segmentOf_firstn | apply segmentOf_skipn].
    - apply segmentOf_skipn. }
  fold (start (rev l)). fold (start l).
  destruct (match take pg with
            | Some n => (n <? 0)%Z
            | None => false
            end).
  - pose proof (segmentOf_rev _ _ _ (Hpage (rev l))) as Hrev.
    rewrite rev_involutive in Hrev. exact Hrev.
  - apply Hpage.
Qed.

Lemma descending_app (A : Type) (f : A -> Z) (a b : list A) :
  descending f (a ++ b) -> descending f a /\ descending f b.
Proof.
  induction a as [| x t IH]; simpl; [tauto|].
  intros [Hall Hrest]. apply Forall_app in Hall.
  destruct (IH Hrest). tauto.
Qed.

Lemma descending_segment (A : Type) (f : A -> Z) (m l : list A) :
  segmentOf m l -> descending f l -> descending f m.
Proof.
  intros [pre [post ->]] Hl.
  apply descending_app in Hl. destruct Hl as [_ Hl].
  apply descending_app in Hl. tauto.
Qed.

Lemma insertDesc_descending (A : Type) (f : A -> Z) (x : A) (l : list A) :
  descending f l -> descending f (Prisma.insertDesc f x l).
Proof.
  induction l as [| y t IH]; simpl.
  - intros _. split; [constructor | exact I].
  - intros [Hall Hrest].
    destruct (f x <? f y)%Z eqn:Hlt; simpl.
    + apply Z.ltb_lt in Hlt. split; [|now apply IH].
      rewrite Forall_forall in *. intros z Hz.
      apply insertDesc_In in Hz. destruct Hz as [-> | Hz];
        [lia | now apply Hall].
    + apply Z.ltb_ge in Hlt. split; [|split; assumption].
      constructor; [lia|].
      rewrite Forall_forall in *. intros z Hz.
      specialize (Hall z Hz). simpl in Hall. lia.
Qed.

Lemma sortDesc_descending (A : Type) (f : A -> Z) (l : list A) :
  descending f (Prisma.sortDesc f l).
Proof.
  induction l as [| x t IH]; simpl; [exact I|].
  now apply insertDesc_descending.
Qed.

Lemma slice0_segment (A : Type) (l : list A) (e : Z) :
  segmentOf (JS.slice0 l e) l.
Proof. unfold JS.slice0. apply segmentOf_firstn. Qed.

Lemma slice0_length (A : Type) (l : list A) (e : Z) :
  (0 <= e)%Z -> (Z.of_nat (List.length (JS.slice0 l e)) <= e)%Z.
Proof.
  intro He. rewrite slice0_nonneg by assumption.
  rewrite length_firstn. lia.
Qed.

(** X1.  The page of the feed and the page of comments are runs of
    consecutive records of the matching records ordered by creation time,
    newest first; so each is itself in that order. *)
Theorem page_is_ordered_run (input : PaginationInput) (s : Store) :
  (forall req session,
      getSession req false = Returned session ->
      exists page,
        outcome (Query_feed input req s) = Returned page
        /\ segmentOf (PaginatedPosts.posts page)
             (Prisma.sortDesc PostType.createdAt
                (filter (feedWhere s session) (posts s)))
        /\ descending PostType.createdAt (PaginatedPosts.posts page))
  /\ (forall parent,
         exists page,
           outcome (Post_comments parent input s) = Returned page
           /\ segmentOf (PaginatedComments.comments page)
                (Prisma.sortDesc Comment.createdAt
                   (filter (commentsWhere parent) (comments s)))
           /\ descending Comment.createdAt
                (PaginatedComments.comments page)).
Proof.
  split.
  - intros req session Hsession. run. rewrite Hsession. simpl.
    unfold feedWhere, subscriptions, Prisma.userSub_findMany.
    destruct (sessionUser session) as [uid |]; simpl;
      eexists; (split; [reflexivity|]); simpl;
      match goal with
      | |- segmentOf ?m ?l /\ _ =>
          assert (Hseg : segmentOf m l)
            by (eapply segmentOf_trans;
                [apply slice0_segment | apply paginate_segment]);
          split; [exact Hseg|];
          apply (descending_segment _ _ _ _ Hseg);
          apply sortDesc_descending
      end.
  - intro parent. run. eexists. split; [reflexivity|]. simpl.
    match goal with
    | |- segmentOf ?m ?l /\ _ =>
        assert (Hseg : segmentOf m l)
          by (eapply segmentOf_trans;
              [apply slice0_segment | apply paginate_segment]);
        split; [exact Hseg|];
        apply (descending_segment _ _ _ _ Hseg);
        apply sortDesc_descending
    end.
Qed.

(** X2.  For a positive size and a directive asking for one record more,
    the page is the first [take] of the eligible records, and [hasMore] is
    true exactly when there are more than [take] of them; nothing is left
    out when [hasMore] is false. *)
Theorem page_is_prefix_of_eligible (input : PaginationInput) (s : Store) :
  (0 < in_take input)%Z ->
  take (getPaginationData input) = Some (in_take input + 1)%Z ->
  (forall req session,
      getSession req false = Returned session ->
      let eligible :=
        Prisma.post_findMany s (feedWhere s session)
                             (unbounded (getPaginationData input)) in
      exists page,
        outcome (Query_feed input req s) = Returned page
        /\ PaginatedPosts.posts page
           = firstn (Z.to_nat (in_take input)) eligible
        /\ (PaginatedPosts.hasMore page = true
            <-> (in_take input < Z.of_nat (List.length eligible))%Z)
        /\ (PaginatedPosts.hasMore page = false ->
            PaginatedPosts.posts page = eligible))
  /\ (forall parent,
         let eligible :=
           Prisma.comment_findMany s (commentsWhere parent)
                                   (unbounded (getPaginationData input)) in
         exists page,
           outcome (Post_comments parent input s) = Returned page
           /\ PaginatedComments.comments page
              = firstn (Z.to_nat (in_take input)) eligible
           /\ (PaginatedComments.hasMore page = true
               <-> (in_take input < Z.of_nat (List.length eligible))%Z)
           /\ (PaginatedComments.hasMore page = false ->
               PaginatedComments.comments page = eligible)).
Proof.
  intros Hpos Htake.
  assert (Hrule : forall (A : Type) (eligible : list A),
             let fetched := firstn (Z.to_nat (in_take input + 1)) eligible in
             let more := (Z.of_nat (List.length fetched)
                          =? in_take input + 1)%Z in
             JS.slice0 fetched (in_take input)
             = firstn (Z.to_nat (in_take input)) eligible
             /\ (more = true
                 <-> (in_take input < Z.of_nat (List.length eligible))%Z)
             /\ (more = false ->
                 JS.slice0 fetched (in_take input) = eligible)).
  { intros A eligible fetched more.
    assert (Hpage : JS.slice0 fetched (in_take input)
                    = firstn (Z.to_nat (in_take input)) eligible).
    { rewrite slice0_nonneg by lia. unfold fetched.
      rewrite firstn_firstn. f_equal. lia. }
    assert (Hlen : List.length fetched
                   = Nat.min (Z.to_nat (in_take input + 1))
                             (List.length eligible))
      by apply length_firstn.
    split; [exact Hpage|]. split.
    - unfold more. rewrite Z.eqb_eq. lia.
    - intro Hno. rewrite Hpage. apply firstn_all2.
      unfold more in Hno. apply Z.eqb_neq in Hno. lia. }
  split.
  - intros req session Hsession eligible. subst eligible.
    run. rewrite Hsession. simpl.
    unfold feedWhere, subscriptions, Prisma.userSub_findMany.
    destruct (sessionUser session) as [uid |]; simpl;
      eexists; (split; [reflexivity|]); simpl;
      unfold Prisma.post_findMany;
      rewrite (findMany_limit _ _ _ _ _ _ (in_take input + 1)%Z)
        by (assumption || lia);
      apply Hrule.
  - intros parent eligible. subst eligible. run.
    eexists. split; [reflexivity|]. simpl.
    unfold Prisma.comment_findMany, commentsWhere.
    rewrite (findMany_limit _ _ _ _ _ _ (in_take input + 1)%Z)
      by (assumption || lia).
    apply Hrule.
Qed.

Lemma paginate_length (A : Type) (key : A -> string) (pg : Pagination)
      (n : Z) (l : list A) :
  take pg = Some n ->
  List.length (Prisma.paginate key pg l) <= Z.abs_nat n.
Proof.
  intro Htake. unfold Prisma.paginate. rewrite Htake.
  destruct (n <? 0)%Z; [rewrite length_rev|]; apply firstn_le_length.
Qed.

Lemma nonpositive_take_rule (A : Type) (key : A -> string)
      (pg : Pagination) (t : Z) (l : list A) :
  (t <= 0)%Z -> take pg = Some (t + 1)%Z ->
  let fetched := Prisma.paginate key pg l in
  let more := (Z.of_nat (List.length fetched) =? t + 1)%Z in
  JS.slice0 fetched t = []
  /\ (t = (-1)%Z -> more = true)
  /\ (t < -1 -> more = false)%Z
  /\ (t = 0%Z ->
      (more = true <-> Prisma.paginate key (unbounded pg) l <> [])).
Proof.
  intros Ht Htake fetched more.
  pose proof (paginate_length _ key pg _ l Htake) as Hlen.
  fold fetched in Hlen.
  split; [|split; [|split]].
  - unfold JS.slice0. destruct (t <? 0)%Z eqn:Hneg.
    + apply Z.ltb_lt in Hneg.
      replace (Z.to_nat (Z.max (Z.of_nat (List.length fetched) + t) 0))
        with 0 by lia.
      reflexivity.
    + apply Z.ltb_ge in Hneg. replace t with 0%Z by lia.
      rewrite Z.min_l by lia. reflexivity.
  - intros ->. unfold more. apply Z.eqb_eq. simpl in Hlen. lia.
  - intro Hlow. unfold more. apply Z.eqb_neq. lia.
  - intros ->. unfold more, fetched.
    rewrite (paginate_limit _ key pg 1%Z l Htake) by lia.
    rewrite Z.eqb_eq.
    destruct (Prisma.paginate key (unbounded pg) l) as [| x rest];
      simpl; split; intro H; try lia; try congruence.
Qed.

(** X3.  A size of zero or less gives an empty page.  With a directive
    asking for one record more than the size, [hasMore] is then true for
    the size [-1], whatever the store holds, false below [-1], and for the
    size [0] true exactly when a record is eligible. *)
Theorem nonpositive_take_gives_empty_page (input : PaginationInput)
        (s : Store) :
  (in_take input <= 0)%Z ->
  take (getPaginationData input) = Some (in_take input + 1)%Z ->
  (forall req session,
      getSession req false = Returned session ->
      exists page,
        outcome (Query_feed input req s) = Returned page
        /\ PaginatedPosts.posts page = []
        /\ (in_take input = (-1)%Z -> PaginatedPosts.hasMore page = true)
        /\ ((in_take input < -1)%Z -> PaginatedPosts.hasMore page = false)
        /\ (in_take input = 0%Z ->
            (PaginatedPosts.hasMore page = true
             <-> Prisma.post_findMany s (feedWhere s session)
                   (unbounded (getPaginationData input)) <> [])))
  /\ (forall parent,
         exists page,
           outcome (Post_comments parent input s) = Returned page
           /\ PaginatedComments.comments page = []
           /\ (in_take input = (-1)%Z ->
               PaginatedComments.hasMore page = true)
           /\ ((in_take input < -1)%Z ->
               PaginatedComments.hasMore page = false)
           /\ (in_take input = 0%Z ->
               (PaginatedComments.hasMore page = true
                <-> Prisma.comment_findMany s (commentsWhere parent)
                      (unbounded (getPaginationData input)) <> []))).
Proof.
  intros Hle Htake. split.
  - intros req session Hsession. run. rewrite Hsession. simpl.
    unfold feedWhere, subscriptions, Prisma.userSub_findMany.
    destruct (sessionUser session) as [uid |]; simpl;
      eexists; (split; [reflexivity|]); simpl;
      unfold Prisma.post_findMany, Prisma.findMany;
      apply nonpositive_take_rule; assumption.
  - intro parent. run. eexists. split; [reflexivity|]. simpl.
    unfold Prisma.comment_findMany, Prisma.findMany, commentsWhere.
    apply nonpositive_take_rule; assumption.
Qed.

(** X4.  The comments of a post's page are stored comments of that post,
    and resolving them reads the store once and writes nothing. *)
Theorem comments_belong_to_parent (parent : PostType.t)
        (input : PaginationInput) (s : Store) :
  exists page,
    outcome (Post_comments parent input s) = Returned page
    /\ (forall c, In c (PaginatedComments.comments page) ->
                  In c (comments s)
                  /\ Comment.postId c = PostType.id parent)
    /\ final (Post_comments parent input s) = s
    /\ trace (Post_comments parent input s) = [CommentFindMany].
Proof.
  run. eexists. split; [reflexivity|]. simpl.
  split; [|split; reflexivity].
  intros c Hin. apply slice0_incl in Hin.
  apply findMany_sound in Hin. destruct Hin as [Hrow Hpost].
  split; [assumption | now apply String.eqb_eq].
Qed.

(** X5.  A user with a session and no subscription gets an empty feed,
    whatever posts are stored; [hasMore] is then true only for the size
    [-1]. *)
Theorem feed_without_subscription_is_empty (input : PaginationInput)
        (req : Request) (session : option Session) (uid : string)
        (s : Store) :
  getSession req false = Returned session ->
  sessionUser session = Some uid ->
  (forall r, In r (userSubs s) -> UserSub.userId r <> uid) ->
  exists page,
    outcome (Query_feed input req s) = Returned page
    /\ PaginatedPosts.posts page = []
    /\ (PaginatedPosts.hasMore page = true <-> in_take input = (-1)%Z).
Proof.
  intros Hsession Huser Hnone. run. rewrite Hsession. simpl.
  rewrite Huser. simpl. eexists. split; [reflexivity|]. simpl.
  assert (Hsubs : Prisma.userSub_findMany s
                    (fun r => String.eqb (UserSub.userId r) uid) = []).
  { unfold Prisma.userSub_findMany.
    induction (userSubs s) as [| r t IH]; simpl; [reflexivity|].
    destruct (String.eqb (UserSub.userId r) uid) eqn:Heq.
    - apply String.eqb_eq in Heq. exfalso.
      apply (Hnone r); [now left | assumption].
    - apply IH. intros r' Hr'. apply Hnone. now right. }
  rewrite Hsubs. simpl.
  assert (Hfetch : forall pg,
             Prisma.post_findMany s (fun _ : PostType.t => false) pg = []).
  { intro pg. unfold Prisma.post_findMany, Prisma.findMany.
    assert (Hfilter : filter (fun _ : PostType.t => false) (posts s) = []).
    { induction (posts s) as [| x t IH]; simpl; auto. }
    rewrite Hfilter. simpl.
    pose proof (paginate_segment _ PostType.id pg []) as Hseg.
    apply segmentOf_length in Hseg. simpl in Hseg.
    destruct (Prisma.paginate PostType.id pg []); [reflexivity|].
    simpl in Hseg. lia. }
  rewrite Hfetch. split; [unfold JS.slice0; apply firstn_nil|].
  change (Z.of_nat (@List.length PostType.t [])) with 0%Z.
  rewrite Z.eqb_eq. lia.
Qed.

(** X6.  For a size of zero or more the page never holds more records
    than asked for, whatever directive the pagination helper gives, and
    every post of a feed page is a stored post. *)
Theorem page_within_requested_size (input : PaginationInput) (s : Store) :
  (0 <= in_take input)%Z ->
  (forall req page,
      outcome (Query_feed input req s) = Returned page ->
      (Z.of_nat (List.length (PaginatedPosts.posts page))
       <= in_take input)%Z
      /\ forall p, In p (PaginatedPosts.posts page) -> In p (posts s))
  /\ (forall parent page,
         outcome (Post_comments parent input s) = Returned page ->
         (Z.of_nat (List.length (PaginatedComments.comments page))
          <= in_take input)%Z).
Proof.
  intro Hnonneg. split.
  - intros req page. run.
    destruct (getSession req false) as [session | f]; simpl;
      [|discriminate].
    destruct (sessionUser session) as [uid |]; simpl;
      intro Hout; injection Hout as <-; simpl;
      (split; [now apply slice0_length|]);
      intros p Hin; apply slice0_incl in Hin;
      apply findMany_sound in Hin; tauto.
  - intros parent page. run. intro Hout. injection Hout as <-. simpl.
    now apply slice0_length.
Qed.

(** *** What the mutations do to the table of posts *)

Lemma find_app_fresh (A : Type) (p : A -> bool) (l : list A) (y : A) :
  existsb p l = false -> p y = true -> find p (l ++ [y]) = Some y.
Proof.
  intros Hnone Hy. induction l as [| x t IH]; simpl in *.
  - now rewrite Hy.
  - apply orb_false_iff in Hnone. destruct Hnone as [Hx Ht].
    rewrite Hx. now apply IH.
Qed.

Lemma find_app_other (A : Type) (p : A -> bool) (l : list A) (y : A) :
  p y = false -> find p (l ++ [y]) = find p l.
Proof.
  intro Hy. induction l as [| x t IH]; simpl.
  - now rewrite Hy.
  - destruct (p x); [reflexivity | exact IH].
Qed.

Lemma existsb_find_none (A : Type) (p : A -> bool) (l : list A) :
  existsb p l = false -> find p l = None.
Proof.
  induction l as [| x t IH]; simpl; [reflexivity|].
  intro H. apply orb_false_iff in H. destruct H as [Hx Ht].
  rewrite Hx. now apply IH.
Qed.

Lemma replaceFirst_map (A B : Type) (g : A -> B) (p : A -> bool)
      (f : A -> A) (l : list A) :
  (forall x, g (f x) = g x) ->
  map g (Prisma.replaceFirst p f l) = map g l.
Proof.
  intro Hkeep. induction l as [| x t IH]; simpl; [reflexivity|].
  destruct (p x); simpl; [now rewrite Hkeep | now rewrite IH].
Qed.

Lemma find_replaceFirst_other (A : Type) (p q : A -> bool) (f : A -> A)
      (l : list A) :
  (forall x, q (f x) = q x) -> (forall x, p x = true -> q x = false) ->
  find q (Prisma.replaceFirst p f l) = find q l.
Proof.
  intros Hkeep Hapart. induction l as [| x t IH]; simpl; [reflexivity|].
  destruct (p x) eqn:Hp; simpl.
  - now rewrite Hkeep, (Hapart x Hp).
  - now rewrite IH.
Qed.

Lemma replaceFirst_keeps_others (A : Type) (p : A -> bool) (f : A -> A)
      (l : list A) (found x : A) :
  find p l = Some found -> In x l -> x <> found ->
  In x (Prisma.replaceFirst p f l).
Proof.
  intros Hfind Hin Hneq. induction l as [| y t IH]; simpl in *;
    [contradiction|].
  destruct (p y).
  - injection Hfind as ->. destruct Hin as [-> | Hin];
      [contradiction | now right].
  - destruct Hin as [-> | Hin]; [now left | right; now apply IH].
Qed.

Lemma find_removeFirst_other (A : Type) (p q : A -> bool) (l : list A) :
  (forall x, p x = true -> q x = false) ->
  find q (Prisma.removeFirst p l) = find q l.
Proof.
  intro Hapart. induction l as [| x t IH]; simpl; [reflexivity|].
  destruct (p x) eqn:Hp; simpl.
  - now rewrite (Hapart x Hp).
  - now rewrite IH.
Qed.

Lemma removeFirst_keeps_others (A : Type) (p : A -> bool) (l : list A)
      (found x : A) :
  find p l = Some found -> In x l -> x <> found ->
  In x (Prisma.removeFirst p l).
Proof.
  intros Hfind Hin Hneq. induction l as [| y t IH]; simpl in *;
    [contradiction|].
  destruct (p y).
  - injection Hfind as ->. destruct Hin as [-> | Hin];
      [contradiction | assumption].
  - destruct Hin as [-> | Hin]; [now left | right; now apply IH].
Qed.

Lemma removeFirst_incl (A : Type) (p : A -> bool) (l : list A) (x : A) :
  In x (Prisma.removeFirst p l) -> In x l.
Proof.
  induction l as [| y t IH]; simpl; [tauto|].
  destruct (p y); simpl; tauto.
Qed.

Lemma removeFirst_length (A : Type) (p : A -> bool) (l : list A)
      (found : A) :
  find p l = Some found ->
  S (List.length (Prisma.removeFirst p l)) = List.length l.
Proof.
  induction l as [| y t IH]; simpl; [discriminate|].
  destruct (p y); simpl; [reflexivity|].
  intro H. now rewrite IH.
Qed.

Lemma removeFirst_NoDup (A B : Type) (g : A -> B) (p : A -> bool)
      (l : list A) :
  NoDup (map g l) -> NoDup (map g (Prisma.removeFirst p l)).
Proof.
  induction l as [| y t IH]; simpl; [tauto|].
  intro Hnd. inversion Hnd as [| k ks Hfresh Hrest]; subst.
  destruct (p y); simpl; [assumption|].
  constructor; [|now apply IH].
  intro Hin. apply Hfresh. apply in_map_iff in Hin.
  destruct Hin as [x [Hx Hin]]. apply in_map_iff. exists x.
  split; [assumption | now apply removeFirst_incl in Hin].
Qed.

Lemma find_removeFirst_same (l : list PostType.t) (i : string) :
  NoDup (map PostType.id l) ->
  find (Prisma.hasId i) (Prisma.removeFirst (Prisma.hasId i) l) = None.
Proof.
  induction l as [| y t IH]; simpl; [reflexivity|].
  intro Hnd. inversion Hnd as [| k ks Hfresh Hrest]; subst.
  destruct (Prisma.hasId i y) eqn:Hy; simpl.
  - unfold Prisma.hasId in Hy. apply String.eqb_eq in Hy. subst i.
    destruct (find (Prisma.hasId (PostType.id y)) t) as [x |] eqn:Hx;
      [|reflexivity].
    apply find_some in Hx. destruct Hx as [Hin Hid].
    unfold Prisma.hasId in Hid. apply String.eqb_eq in Hid.
    exfalso. apply Hfresh. rewrite <- Hid. now apply in_map.
  - rewrite Hy. now apply IH.
Qed.

Lemma hasId_apart (i j : string) (x : PostType.t) :
  j <> i -> Prisma.hasId i x = true -> Prisma.hasId j x = false.
Proof.
  unfold Prisma.hasId. intros Hneq Hi. apply String.eqb_eq in Hi.
  apply String.eqb_neq. congruence.
Qed.

Lemma mem_In (x : string) (l : list string) :
  Prisma.mem x l = true -> In x l.
Proof.
  unfold Prisma.mem. intro H. apply existsb_exists in H.
  destruct H as [y [Hin Heq]]. apply String.eqb_eq in Heq. now subst.
Qed.

(** How a run of each mutation can end. *)
Lemma createPost_cases (subName : string) (input : PostInput)
      (req : Request) (freshId : string) (now : Z) (s : Store) :
  let create := Mutation_createPost subName input req freshId now s in
  (final create = s /\ exists f, outcome create = Thrown f)
  \/ (exists se post,
         getSession req true = Returned (Some se)
         /\ Prisma.post_create s freshId now (userId se) subName input
            = inr (post, final create)
         /\ outcome create = Returned post).
Proof.
  run. destruct (getSession req true) as [[se |] | f]; simpl; eauto.
  destruct (validatePost input) as [msg |]; simpl;
    [destruct (JS.truthy msg); simpl; eauto|];
    destruct (Prisma.post_create s freshId now (userId se) subName input)
      as [e | [post s']] eqn:Hcreate; simpl; eauto 10.
Qed.

Lemma editPost_cases (postId : string) (input : PostInput) (req : Request)
      (now : Z) (s : Store) :
  let edit := Mutation_editPost postId input req now s in
  (final edit = s /\ exists f, outcome edit = Thrown f)
  \/ (exists se found,
         getSession req true = Returned (Some se)
         /\ Prisma.post_findUnique s postId = Some found
         /\ PostType.creatorId found = userId se
         /\ outcome edit = Returned (Prisma.applyInput input now found)
         /\ final edit
            = Prisma.withPosts s
                (Prisma.replaceFirst (Prisma.hasId postId)
                                     (Prisma.applyInput input now)
                                     (posts s))).
Proof.
  run. destruct (getSession req true) as [[se |] | f]; simpl; eauto.
  destruct (Prisma.post_findUnique s postId) as [found |] eqn:Hfound;
    simpl; eauto.
  destruct (String.eqb (PostType.creatorId found) (userId se)) eqn:Hown;
    simpl; eauto.
  apply String.eqb_eq in Hown.
  unfold Prisma.post_update. rewrite Hfound. simpl.
  right. exists se, found. auto.
Qed.

Lemma deletePost_cases (postId : string) (req : Request) (s : Store) :
  let delete := Mutation_deletePost postId req s in
  (final delete = s /\ exists f, outcome delete = Thrown f)
  \/ (exists se found,
         getSession req true = Returned (Some se)
         /\ Prisma.post_findUnique s postId = Some found
         /\ PostType.creatorId found = userId se
         /\ outcome delete = Returned true
         /\ final delete
            = Prisma.withPosts s
                (Prisma.removeFirst (Prisma.hasId postId) (posts s))).
Proof.
  run. destruct (getSession req true) as [[se |] | f]; simpl; eauto.
  destruct (Prisma.post_findUnique s postId) as [found |] eqn:Hfound;
    simpl; eauto.
  destruct (String.eqb (PostType.creatorId found) (userId se)) eqn:Hown;
    simpl; eauto.
  apply String.eqb_eq in Hown.
  unfold Prisma.post_delete. rewrite Hfound.
  destruct (Prisma.referredTo s postId); simpl; eauto.
  right. exists se, found. auto.
Qed.

Lemma post_create_done (s s' : Store) (freshId : string) (now : Z)
      (creator sub : string) (input : PostInput) (post : PostType.t) :
  Prisma.post_create s freshId now creator sub input = inr (post, s') ->
  Prisma.mem creator (users s) = true
  /\ Prisma.mem sub (subs s) = true
  /\ existsb (Prisma.hasId freshId) (posts s) = false
  /\ PostType.id post = freshId
  /\ PostType.creatorId post = creator
  /\ PostType.subName post = sub
  /\ PostType.title post = in_title input
  /\ PostType.body post = in_body input
  /\ PostType.createdAt post = now
  /\ PostType.updatedAt post = now
  /\ s' = Prisma.withPosts s (posts s ++ [post]).
Proof.
  unfold Prisma.post_create.
  destruct (Prisma.mem creator (users s)); simpl; [|discriminate].
  destruct (Prisma.mem sub (subs s)); simpl; [|discriminate].
  destruct (existsb (Prisma.hasId freshId) (posts s)); simpl;
    [discriminate|].
  intro H. injection H as <- <-. simpl. repeat split.
Qed.

(** X7.  A post that [createPost] returns has the user of the session as
    its creator and the given sub, both of which exist in the store, the
    title and body of the input, the identifier and the date the store
    gave it; the table of posts has gained this one row at its end. *)
Theorem created_post_is_callers (subName : string) (input : PostInput)
        (req : Request) (freshId : string) (now : Z) (s : Store)
        (post : PostType.t) :
  let create := Mutation_createPost subName input req freshId now s in
  outcome create = Returned post ->
  exists se,
    getSession req true = Returned (Some se)
    /\ PostType.creatorId post = userId se
    /\ PostType.subName post = subName
    /\ In (userId se) (users s)
    /\ In subName (subs s)
    /\ PostType.title post = in_title input
    /\ PostType.body post = in_body input
    /\ PostType.id post = freshId
    /\ PostType.createdAt post = now
    /\ PostType.updatedAt post = now
    /\ final create = Prisma.withPosts s (posts s ++ [post]).
Proof.
  intros create Hout. subst create.
  destruct (createPost_cases subName input req freshId now s)
    as [[_ [f Hf]] | [se [post' [Hsession [Hcreate Hret]]]]];
    [congruence|].
  assert (post' = post) by congruence. subst post'.
  apply post_create_done in Hcreate.
  destruct Hcreate as [Hu [Hs [_ [? [? [? [? [? [? [? ?]]]]]]]]]].
  exists se. repeat split; try assumption; now apply mem_In.
Qed.

(** X8.  After [createPost] has returned a post, [Query.post] finds that
    post under its identifier, which no post had before; the answer for
    every other identifier is as before. *)
Theorem created_post_can_be_read (subName : string) (input : PostInput)
        (req : Request) (freshId : string) (now : Z) (s : Store)
        (post : PostType.t) :
  let create := Mutation_createPost subName input req freshId now s in
  outcome create = Returned post ->
  outcome (Query_post freshId s) = Returned None
  /\ outcome (Query_post freshId (final create)) = Returned (Some post)
  /\ forall j, j <> freshId ->
               outcome (Query_post j (final create))
               = outcome (Query_post j s).
Proof.
  intros create Hout. subst create.
  destruct (createPost_cases subName input req freshId now s)
    as [[_ [f Hf]] | [se [post' [Hsession [Hcreate Hret]]]]];
    [congruence|].
  assert (post' = post) by congruence. subst post'.
  apply post_create_done in Hcreate.
  destruct Hcreate as [_ [_ [Hfresh [Hid [_ [_ [_ [_ [_ [_ Hfinal]]]]]]]]]].
  unfold Query_post, query, Prisma.post_findUnique. simpl.
  rewrite Hfinal. simpl. split; [|split].
  - now rewrite existsb_find_none.
  - rewrite find_app_fresh; [reflexivity | assumption|].
    unfold Prisma.hasId. rewrite Hid. apply String.eqb_refl.
  - intros j Hj. rewrite find_app_other; [reflexivity|].
    unfold Prisma.hasId. rewrite Hid. apply String.eqb_neq. congruence.
Qed.

(** X9.  A post that [editPost] returns is the stored post of that
    identifier with the title and body of the input: identifier, creator,
    sub and creation date are kept.  The identifiers of the table, in
    their order, are as before, and so is the answer of [Query.post] for
    every other identifier. *)
Theorem edited_post_keeps_identity (postId : string) (input : PostInput)
        (req : Request) (now : Z) (s : Store) (post : PostType.t) :
  let edit := Mutation_editPost postId input req now s in
  outcome edit = Returned post ->
  (exists found,
      Prisma.post_findUnique s postId = Some found
      /\ PostType.id post = PostType.id found
      /\ PostType.creatorId post = PostType.creatorId found
      /\ PostType.subName post = PostType.subName found
      /\ PostType.createdAt post = PostType.createdAt found)
  /\ PostType.id post = postId
  /\ PostType.title post = in_title input
  /\ PostType.body post = in_body input
  /\ map PostType.id (posts (final edit)) = map PostType.id (posts s)
  /\ forall j, j <> postId ->
               outcome (Query_post j (final edit))
               = outcome (Query_post j s).
Proof.
  intros edit Hout. subst edit.
  destruct (editPost_cases postId input req now s)
    as [[_ [f Hf]] | [se [found [Hsession [Hfound [Hown [Hret Hfinal]]]]]]];
    [congruence|].
  assert (post = Prisma.applyInput input now found) by congruence.
  subst post. rewrite Hfinal. simpl.
  split; [exists found; repeat split; assumption|].
  split.
  { unfold Prisma.post_findUnique in Hfound. apply find_some in Hfound.
    destruct Hfound as [_ Hid]. unfold Prisma.hasId in Hid.
    now apply String.eqb_eq in Hid. }
  split; [reflexivity|]. split; [reflexivity|]. split.
  - apply replaceFirst_map. reflexivity.
  - intros j Hj. unfold Query_post, query, Prisma.post_findUnique. simpl.
    rewrite find_replaceFirst_other; [reflexivity | reflexivity|].
    intros x. now apply hasId_apart.
Qed.

(** X10.  When identifiers are unique and [deletePost] has returned, the
    post is gone: [Query.post] answers [null] for it, deleting it again
    faults with "post not found", the table has one row less, and the
    answer of [Query.post] for every other identifier is as before. *)
Theorem deleted_post_is_gone (postId : string) (req : Request) (s : Store)
        (done : bool) :
  let delete := Mutation_deletePost postId req s in
  uniquePostIds s ->
  outcome delete = Returned done ->
  done = true
  /\ outcome (Query_post postId (final delete)) = Returned None
  /\ outcome (Mutation_deletePost postId req (final delete))
     = Thrown (ApolloError "post not found")
  /\ S (List.length (posts (final delete))) = List.length (posts s)
  /\ forall j, j <> postId ->
               outcome (Query_post j (final delete))
               = outcome (Query_post j s).
Proof.
  intros delete Huniq Hout. subst delete.
  destruct (deletePost_cases postId req s)
    as [[_ [f Hf]] | [se [found [Hsession [Hfound [Hown [Hret Hfinal]]]]]]];
    [congruence|].
  assert (Hgone : Prisma.post_findUnique
                    (final (Mutation_deletePost postId req s)) postId
                  = None).
  { rewrite Hfinal. unfold Prisma.post_findUnique. simpl.
    now apply find_removeFirst_same. }
  split; [congruence|]. split; [|split; [|split]].
  - unfold Query_post, query. simpl. now rewrite Hgone.
  - revert Hgone. generalize (final (Mutation_deletePost postId req s)).
    intros s1 Hgone. run. rewrite Hsession. simpl. rewrite Hgone.
    reflexivity.
  - rewrite Hfinal. simpl. now apply removeFirst_length with found.
  - intros j Hj. unfold Query_post, query, Prisma.post_findUnique. simpl.
    rewrite Hfinal. simpl.
    rewrite find_removeFirst_other; [reflexivity|].
    intros x. now apply hasId_apart.
Qed.

(** X11.  The three mutations keep the identifiers of the stored posts
    pairwise different, however they end. *)
Theorem mutations_keep_ids_unique (subName postId : string)
        (input : PostInput) (req : Request) (freshId : string) (now : Z)
        (s : Store) :
  uniquePostIds s ->
  uniquePostIds (final (Mutation_createPost subName input req freshId now s))
  /\ uniquePostIds (final (Mutation_editPost postId input req now s))
  /\ uniquePostIds (final (Mutation_deletePost postId req s)).
Proof.
  intro Huniq. unfold uniquePostIds in *. split; [|split].
  - destruct (createPost_cases subName input req freshId now s)
      as [[-> _] | [se [post [_ [Hcreate _]]]]]; [assumption|].
    apply post_create_done in Hcreate.
    destruct Hcreate as [_ [_ [Hfresh [Hid [_ [_ [_ [_ [_ [_ ->]]]]]]]]]].
    simpl. rewrite map_app. apply NoDup_app; [assumption| |].
    + simpl. constructor; [simpl; tauto | constructor].
    + intros i Hin [Heq | []]. simpl in Heq. subst i.
      apply in_map_iff in Hin. destruct Hin as [x [Hx Hin]].
      assert (Hhit : existsb (Prisma.hasId freshId) (posts s) = true).
      { apply existsb_exists. exists x. split; [assumption|].
        unfold Prisma.hasId. apply String.eqb_eq. congruence. }
      congruence.
  - destruct (editPost_cases postId input req now s)
      as [[-> _] | [se [found [_ [_ [_ [_ ->]]]]]]]; [assumption|].
    simpl. rewrite replaceFirst_map; [assumption | reflexivity].
  - destruct (deletePost_cases postId req s)
      as [[-> _] | [se [found [_ [_ [_ [_ ->]]]]]]]; [assumption|].
    simpl. now apply removeFirst_NoDup.
Qed.

(** X12.  [editPost] and [deletePost] never change or remove a post that
    another user created: such a post is in the table afterwards as it was
    before, whichever identifier and input the call names. *)
Theorem others_posts_are_untouched (postId : string) (input : PostInput)
        (req : Request) (now : Z) (s : Store) (p : PostType.t) :
  In p (posts s) ->
  (forall se, getSession req true = Returned (Some se) ->
              PostType.creatorId p <> userId se) ->
  In p (posts (final (Mutation_editPost postId input req now s)))
  /\ In p (posts (final (Mutation_deletePost postId req s))).
Proof.
  intros Hin Hother. split.
  - destruct (editPost_cases postId input req now s)
      as [[-> _] | [se [found [Hsession [Hfound [Hown [_ ->]]]]]]];
      [assumption|].
    simpl. apply replaceFirst_keeps_others with found; try assumption.
    intros ->. now apply (Hother se Hsession).
  - destruct (deletePost_cases postId req s)
      as [[-> _] | [se [found [Hsession [Hfound [Hown [_ ->]]]]]]];
      [assumption|].
    simpl. apply removeFirst_keeps_others with found; try assumption.
    intros ->. now apply (Hother se Hsession).
Qed.

End Resolvers.

(** ** The register validator *)

Module RegexFacts.
Import Regex.

Ltac inv H := inversion H; subst; clear H.

Ltac split_cons :=
  match goal with
  | E : ?s1 ++ _ = _ :: _ |- _ =>
      destruct s1; simpl in E; [subst | injection E as ? ?; subst]
  end.

Lemma nullable_lang (r : t) : nullable r = true <-> lang r [].
Proof.
  induction r as [| | p | r1 IH1 r2 IH2 | r1 IH1 r2 IH2 | r IH]; simpl.
  - split; [discriminate | intro H; inv H].
  - split; [intros _; constructor | reflexivity].
  - split; [discriminate | intro H; inv H].
  - rewrite andb_true_iff, IH1, IH2. split.
    + intros [H1 H2]. change (lang (Seq r1 r2) ([] ++ [])).
      now constructor.
    + intro H. inv H.
      match goal with
      | E : _ ++ _ = [] |- _ =>
          apply app_eq_nil in E; destruct E; subst
      end.
      now split.
  - rewrite orb_true_iff, IH1, IH2. split.
    + intros [H | H]; [now apply lang_Alt_l | now apply lang_Alt_r].
    + intro H. inv H; auto.
  - split; [intros _; constructor | reflexivity].
Qed.

Lemma star_cons (r : t) (c : ascii) (s : list ascii) :
  lang (Star r) (c :: s) ->
  exists s1 s2, s = s1 ++ s2 /\ lang r (c :: s1) /\ lang (Star r) s2.
Proof.
  intro H. remember (Star r) as r' eqn:Hr. remember (c :: s) as cs eqn:Hcs.
  induction H as [| | | | | | r0 s1 s2 H1 _ H2 IH2]; try discriminate.
  injection Hr as ->. destruct s1 as [| c1 s1]; simpl in Hcs.
  - now apply IH2.
  - injection Hcs as -> <-. now exists s1, s2.
Qed.

Lemma seq_cons (r1 r2 : t) (c : ascii) (s1 s2 : list ascii) :
  lang r1 (c :: s1) -> lang r2 s2 -> lang (Seq r1 r2) (c :: s1 ++ s2).
Proof.
  intros H1 H2. change (lang (Seq r1 r2) ((c :: s1) ++ s2)).
  now constructor.
Qed.

Lemma seq_nil (r1 r2 : t) (s : list ascii) :
  lang r1 [] -> lang r2 s -> lang (Seq r1 r2) s.
Proof.
  intros H1 H2. change (lang (Seq r1 r2) ([] ++ s)). now constructor.
Qed.

Lemma deriv_lang (r : t) :
  forall c s, lang (deriv c r) s <-> lang r (c :: s).
Proof.
  induction r as [| | p | r1 IH1 r2 IH2 | r1 IH1 r2 IH2 | r IH];
    intros c s; simpl.
  - split; intro H; inv H.
  - split; intro H; inv H.
  - destruct (p c) eqn:Hp; split; intro H; inv H.
    + now constructor.
    + constructor.
    + congruence.
  - destruct (nullable r1) eqn:Hnull; split; intro H.
    + inv H.
      * match goal with Hl : lang (Seq _ _) _ |- _ => inv Hl end.
        apply seq_cons; [now apply IH1 | assumption].
      * apply seq_nil; [now apply nullable_lang | now apply IH2].
    + inv H. split_cons.
      * apply lang_Alt_r. now apply IH2.
      * apply lang_Alt_l. constructor; [now apply IH1 | assumption].
    + inv H. apply seq_cons; [now apply IH1 | assumption].
    + inv H. split_cons.
      * match goal with
        | Hn : lang r1 [] |- _ => apply nullable_lang in Hn; congruence
        end.
      * constructor; [now apply IH1 | assumption].
  - split; intro H; inv H.
    + apply lang_Alt_l. now apply IH1.
    + apply lang_Alt_r. now apply IH2.
    + apply lang_Alt_l. now apply IH1.
    + apply lang_Alt_r. now apply IH2.
  - split; intro H.
    + inv H.
      match goal with
      | H1 : lang (deriv _ _) ?s1, H2 : lang (Star _) ?s2 |- _ =>
          apply IH in H1;
          change (lang (Star r) ((c :: s1) ++ s2)); now constructor
      end.
    + apply star_cons in H. destruct H as [s1 [s2 [-> [H1 H2]]]].
      constructor; [now apply IH | assumption].
Qed.

(** Without [$], a match at the head is a prefix in the language. *)
Lemma matchHere_prefix (s : list ascii) :
  forall r, matchHere false r s = true
            <-> exists p q, s = p ++ q /\ lang r p.
Proof.
  induction s as [| c s IH]; intro r; simpl.
  - rewrite nullable_lang. split.
    + intro H. now exists [], [].
    + intros [p [q [Heq H]]]. symmetry in Heq.
      apply app_eq_nil in Heq. destruct Heq; now subst.
  - rewrite orb_true_iff, IH, nullable_lang. split.
    + intros [H | [p [q [-> H]]]].
      * now exists [], (c :: s).
      * exists (c :: p), q. split; [reflexivity | now apply deriv_lang].
    + intros [p [q [Heq H]]]. destruct p as [| c1 p]; simpl in Heq.
      * now left.
      * injection Heq as <- ->. right. exists p, q.
        split; [reflexivity | now apply deriv_lang].
Qed.

(** With [$], a match at the head is the whole string. *)
Lemma matchHere_whole (s : list ascii) :
  forall r, matchHere true r s = true <-> lang r s.
Proof.
  induction s as [| c s IH]; intro r; simpl.
  - apply nullable_lang.
  - rewrite IH. apply deriv_lang.
Qed.

Lemma matchAnywhere_infix (s : list ascii) (r : t) :
  matchAnywhere false r s = true
  <-> exists pre p post, s = pre ++ p ++ post /\ lang r p.
Proof.
  induction s as [| c s IH].
  - simpl. rewrite orb_false_r, nullable_lang. split.
    + intro H. now exists [], [], [].
    + intros [pre [p [post [Heq H]]]]. symmetry in Heq.
      apply app_eq_nil in Heq. destruct Heq as [_ Heq].
      apply app_eq_nil in Heq. destruct Heq; now subst.
  - change (matchAnywhere false r (c :: s))
      with (matchHere false r (c :: s) || matchAnywhere false r s).
    rewrite orb_true_iff, IH, matchHere_prefix. split.
    + intros [[p [q [Heq H]]] | [pre [p [post [-> H]]]]].
      * now exists [], p, q.
      * now exists (c :: pre), p, post.
    + intros [pre [p [post [Heq H]]]]. destruct pre as [| c1 pre];
        simpl in Heq.
      * left. now exists p, post.
      * injection Heq as <- ->. right. now exists pre, p, post.
Qed.

(** What [[a-zA-Z0-9]{3,12}] denotes starts with three alphanumeric
    characters, and three of them are enough. *)
Lemma username_lang_head (p : list ascii) :
  lang (pattern usernameRegex) p ->
  exists a b c rest,
    p = a :: b :: c :: rest
    /\ alnum a = true /\ alnum b = true /\ alnum c = true.
Proof.
  intro H. simpl in H. unfold Repeat in H. simpl in H.
  inv H.
  repeat match goal with
         | Hs : lang (Seq _ _) _ |- _ => inv Hs
         | Hc : lang (Class _) _ |- _ => inv Hc
         | He : lang Empty _ |- _ => inv He
         end.
  simpl. eauto 10.
Qed.

Lemma username_lang_three (a b c : ascii) :
  alnum a = true -> alnum b = true -> alnum c = true ->
  lang (pattern usernameRegex) [a; b; c].
Proof.
  intros Ha Hb Hc. simpl. unfold Repeat.
  change [a; b; c] with (([a] ++ [b] ++ [c] ++ []) ++ []).
  constructor.
  - simpl Power. repeat (constructor; try assumption).
  - apply nullable_lang. reflexivity.
Qed.

Lemma usernameRegex_test (s : string) :
  test usernameRegex s = true <-> hasAlnumRun s.
Proof.
  unfold test, hasAlnumRun.
  change (fromStart usernameRegex) with false.
  change (toEnd usernameRegex) with false.
  cbv iota. rewrite matchAnywhere_infix. split.
  - intros [pre [p [post [Heq H]]]].
    apply username_lang_head in H.
    destruct H as [a [b [c [rest [-> [Ha [Hb Hc]]]]]]].
    exists pre, a, b, c, (rest ++ post). now rewrite Heq.
  - intros [pre [a [b [c [post [Heq [Ha [Hb Hc]]]]]]]].
    exists pre, [a; b; c], post. split; [exact Heq|].
    now apply username_lang_three.
Qed.

End RegexFacts.

(** C9.  With a valid email and username, the password fault (whose
    message speaks of 8 characters) is returned exactly for the passwords
    of fewer than 4 characters, and every password of 4 characters or more
    is accepted. *)
Theorem password_threshold_is_four (input : RegisterInput) :
  Regex.test emailRegex (email input) = true ->
  Regex.test usernameRegex (username input) = true ->
  (validateRegister input = Some "password must be at least 8 characters"
   <-> String.length (password input) < 4)
  /\ (validateRegister input = None
      <-> 4 <= String.length (password input)).
Proof.
  intros Hemail Huser. unfold validateRegister.
  rewrite Hemail, Huser. simpl.
  destruct (String.length (password input) <? 4)%nat eqn:Hlen.
  - apply Nat.ltb_lt in Hlen. split; split; try discriminate; auto; lia.
  - apply Nat.ltb_ge in Hlen. split; split; try discriminate; auto; lia.
Qed.

Lemma password_threshold_is_four_witness :
  let input := {| email := "ann@mail.example.org";
                  password := "abcd";
                  username := "ann" |} in
  Regex.test emailRegex (email input) = true
  /\ Regex.test usernameRegex (username input) = true
  /\ validateRegister input = None.
Proof.
  intro input.
  assert (Hemail : Regex.test emailRegex (email input) = true)
    by (vm_compute; reflexivity).
  assert (Huser : Regex.test usernameRegex (username input) = true)
    by (vm_compute; reflexivity).
  split; [exact Hemail|]. split; [exact Huser|].
  apply (proj2 (password_threshold_is_four input Hemail Huser)).
  simpl. lia.
Defined.

(** C10.  The username check is a search without anchors: a username
    passes exactly when three alphanumeric characters stand in a row
    somewhere in it, so usernames of more than 12 characters and usernames
    with other characters in them pass, and the username fault is returned
    only when there is no such run. *)
Theorem username_check_unanchored :
  (forall s, Regex.test usernameRegex s = true <-> hasAlnumRun s)
  /\ (forall input,
         Regex.test emailRegex (email input) = true ->
         (validateRegister input = Some "username should be 3-12 characters"
          <-> ~ hasAlnumRun (username input)))
  /\ (exists s, 12 < String.length s
                /\ Regex.test usernameRegex s = true)
  /\ (exists s c, In c (list_ascii_of_string s)
                  /\ Regex.alnum c = false
                  /\ Regex.test usernameRegex s = true).
Proof.
  split; [exact RegexFacts.usernameRegex_test|]. split; [|split].
  - intros input Hemail. unfold validateRegister. rewrite Hemail. simpl.
    rewrite <- RegexFacts.usernameRegex_test.
    destruct (Regex.test usernameRegex (username input)); simpl.
    + split; [|intro H; now elim H].
      destruct (String.length (password input) <? 4)%nat; discriminate.
    + split; [discriminate | reflexivity].
  - exists "abcdefghijklmnopqrstuvwxyz". split; [simpl; lia|].
    vm_compute. reflexivity.
  - exists "!!abc!!", "!"%char. split; [simpl; auto|].
    split; vm_compute; reflexivity.
Qed.

Lemma username_check_unanchored_witness :
  let input := {| email := "ann@mail.example.org";
                  password := "abcd";
                  username := "a_b_c" |} in
  Regex.test emailRegex (email input) = true
  /\ ~ hasAlnumRun (username input)
  /\ validateRegister input = Some "username should be 3-12 characters".
Proof.
  intro input.
  assert (Hemail : Regex.test emailRegex (email input) = true)
    by (vm_compute; reflexivity).
  assert (Hrun : ~ hasAlnumRun (username input)).
  { intro Hrun.
    apply (proj1 username_check_unanchored) in Hrun.
    vm_compute in Hrun. discriminate. }
  split; [exact Hemail|]. split; [exact Hrun|].
  apply (proj1 (proj2 username_check_unanchored) input Hemail).
  exact Hrun.
Defined.

(** ** The properties on the sample store, with the helpers of [Lib] *)

Local Abbreviation feed :=
  (Query_feed Lib.Request Lib.getSession Lib.getPaginationData).
Local Abbreviation commentsOf := (Post_comments Lib.getPaginationData).
Local Abbreviation voteStatus := (Post_voteStatus Lib.Request Lib.getSession).
Local Abbreviation createPost :=
  (Mutation_createPost Lib.Request Lib.getSession Lib.validatePost).
Local Abbreviation editPost := (Mutation_editPost Lib.Request Lib.getSession).
Local Abbreviation deletePost := (Mutation_deletePost Lib.Request Lib.getSession).

Lemma pagination_lookahead_witness :
  let input := Sample.firstPage 2 in
  (0 < in_take input)%Z
  /\ take (Lib.getPaginationData input) = Some (in_take input + 1)%Z
  /\ (exists page,
         outcome (feed input Sample.anonymous Sample.store) = Returned page
         /\ Z.of_nat (List.length (PaginatedPosts.posts page)) = 2%Z
         /\ PaginatedPosts.hasMore page = true)
  /\ (exists page,
         outcome (feed input Sample.alice Sample.store) = Returned page
         /\ PaginatedPosts.hasMore page = false)
  /\ (exists page,
         outcome (commentsOf Sample.p1 input Sample.store) = Returned page
         /\ Z.of_nat (List.length (PaginatedComments.comments page)) = 2%Z
         /\ PaginatedComments.hasMore page = true).
Proof.
  intro input.
  assert (Hpos : (0 < in_take input)%Z) by reflexivity.
  assert (Htake : take (Lib.getPaginationData input)
                  = Some (in_take input + 1)%Z) by reflexivity.
  destruct (pagination_lookahead Lib.Request Lib.getSession
              Lib.getPaginationData input Hpos Htake) as [Hfeed Hcomments].
  split; [exact Hpos|]. split; [exact Htake|]. split; [|split].
  - destruct (Hfeed Sample.anonymous None Sample.store eq_refl)
      as [page [Hout [_ [_ [Hmany _]]]]].
    exists page. split; [exact Hout|]. apply Hmany.
    vm_compute. discriminate.
  - destruct (Hfeed Sample.alice (Some (mkSession "alice")) Sample.store
                    eq_refl)
      as [page [Hout [_ [_ [_ Hexact]]]]].
    exists page. split; [exact Hout|]. apply Hexact.
    vm_compute. reflexivity.
  - destruct (Hcomments Sample.p1 Sample.store)
      as [page [Hout [_ [_ [Hmany _]]]]].
    exists page. split; [exact Hout|]. apply Hmany.
    vm_compute. discriminate.
Defined.

Lemma feed_subscription_filter_witness :
  Lib.getSession Sample.alice false = Returned (Some (mkSession "alice"))
  /\ exists page,
      outcome (feed (Sample.firstPage 5) Sample.alice Sample.store)
      = Returned page
      /\ forall p, In p (PaginatedPosts.posts page) ->
                   In (PostType.subName p) ["rocq"].
Proof.
  split; [reflexivity|].
  destruct (feed_subscription_filter Lib.Request Lib.getSession
              Lib.getPaginationData (Sample.firstPage 5) Sample.alice
              (Some (mkSession "alice")) Sample.store eq_refl)
    as [page [Hout [Hauth _]]].
  exists page. split; [exact Hout|].
  intros p Hin. exact (proj2 (Hauth "alice" eq_refl p Hin)).
Defined.


Lemma createPost_order_witness :
  outcome (createPost "rocq" Sample.goodInput Sample.anonymous "p4" 99%Z
                      Sample.store)
  = Thrown (AuthenticationError "not authenticated")
  /\ outcome (createPost "nosub" Sample.badInput Sample.alice "p4" 99%Z
                         Sample.store)
     = Thrown (UserInputError "title cannot be empty")
  /\ outcome (createPost "nosub" Sample.goodInput Sample.alice "p4" 99%Z
                         Sample.store)
     = Thrown (ApolloError "sub not found")
  /\ exists post,
      outcome (createPost "rocq" Sample.goodInput Sample.alice "p4" 99%Z
                          Sample.store) = Returned post
      /\ PostType.id post = "p4" /\ PostType.creatorId post = "alice".
Proof.
  assert (Hvalid : forall msg, Lib.validatePost Sample.goodInput = Some msg ->
                               JS.truthy msg = false)
    by (intros msg Hmsg; discriminate Hmsg).
  split; [|split; [|split]].
  - apply (proj1 (createPost_order Lib.Request Lib.getSession
                    Lib.validatePost "rocq" Sample.goodInput
                    Sample.anonymous "p4" 99%Z Sample.store)).
    reflexivity.
  - apply (proj1 (proj2 (createPost_order Lib.Request Lib.getSession
                           Lib.validatePost "nosub" Sample.badInput
                           Sample.alice "p4" 99%Z Sample.store)
                        (mkSession "alice") eq_refl));
      reflexivity.
  - apply (proj1 (proj2 (proj2 (createPost_order Lib.Request Lib.getSession
                                  Lib.validatePost "nosub" Sample.goodInput
                                  Sample.alice "p4" 99%Z Sample.store)
                               (mkSession "alice") eq_refl) Hvalid)
                 (Prisma.ForeignKeyViolation "subName")).
    reflexivity.
  - eexists. split.
    + eapply (proj2 (proj2 (proj2 (createPost_order Lib.Request
                                     Lib.getSession Lib.validatePost "rocq"
                                     Sample.goodInput Sample.alice "p4" 99%Z
                                     Sample.store)
                                  (mkSession "alice") eq_refl) Hvalid)).
      reflexivity.
    + split; reflexivity.
Defined.

Lemma voteStatus_spec_witness :
  Lib.getSession Sample.alice false = Returned (Some (mkSession "alice"))
  /\ (forall v, In v (postVotes Sample.store) ->
                PostVote.value v = (-1)%Z \/ PostVote.value v = 1%Z)
  /\ uniqueVotes Sample.store
  /\ outcome (voteStatus Sample.p3 Sample.alice Sample.store)
     = Returned (-1)%Z.
Proof.
  assert (Hrange : forall v, In v (postVotes Sample.store) ->
                             PostVote.value v = (-1)%Z
                             \/ PostVote.value v = 1%Z).
  { intros v Hin. simpl in Hin.
    repeat (destruct Hin as [<- | Hin]; [simpl; auto|]).
    contradiction. }
  assert (Huniq : uniqueVotes Sample.store).
  { unfold uniqueVotes. simpl.
    repeat (constructor; [simpl; intuition discriminate|]).
    constructor. }
  split; [reflexivity|]. split; [exact Hrange|]. split; [exact Huniq|].
  destruct (voteStatus_spec Lib.Request Lib.getSession Sample.p3
              Sample.alice (Some (mkSession "alice")) Sample.store
              eq_refl Hrange)
    as [status [Hout [_ [_ [_ Hvote]]]]].
  rewrite Hout. f_equal.
  apply (Hvote "alice" (PostVote.mk "alice" "p3" (-1)) eq_refl Huniq).
  - simpl. auto.
  - reflexivity.
Defined.

(** The examples of the specification: votes [+1, +1, -1] on a post give
    [votes = 1], and [voteStatus = 0] for an anonymous request. *)
Example votes_example :
  outcome (Post_votes Sample.p1 Sample.store) = Returned 1%Z
  /\ outcome (voteStatus Sample.p1 Sample.anonymous Sample.store)
     = Returned 0%Z.
Proof. split; reflexivity. Qed.

(** A failed create leaves the store as it was and a successful one adds
    one row. *)
Example createPost_example :
  final (createPost "nosub" Sample.goodInput Sample.alice "p4" 99%Z
                    Sample.store) = Sample.store
  /\ List.length
       (posts (final (createPost "rocq" Sample.goodInput Sample.alice "p4"
                                 99%Z Sample.store))) = 4.
Proof. split; reflexivity. Qed.

(** ** The error map *)

Module ErrorMapFacts.
Import JSObject.

Lemma getOwn_setOwn_same (o : t) (k v : string) :
  getOwn (setOwn o k v) k = Some v.
Proof.
  induction o as [| [k' v'] rest IH]; simpl.
  - now rewrite String.eqb_refl.
  - destruct (String.eqb k' k) eqn:Hk; simpl; rewrite Hk;
      [reflexivity | exact IH].
Qed.

Lemma getOwn_setOwn_other (o : t) (k v k0 : string) :
  k0 <> k -> getOwn (setOwn o k v) k0 = getOwn o k0.
Proof.
  intro Hneq. induction o as [| [k' v'] rest IH]; simpl.
  - destruct (String.eqb_spec k k0); [congruence | reflexivity].
  - destruct (String.eqb_spec k' k) as [-> | Hk]; simpl.
    + destruct (String.eqb_spec k k0); [congruence | reflexivity].
    + destruct (String.eqb k' k0); [reflexivity | exact IH].
Qed.

Lemma getOwn_keys (o : t) (k : string) :
  In k (keys o) <-> getOwn o k <> None.
Proof.
  unfold keys. induction o as [| [k' v'] rest IH]; simpl.
  - split; [contradiction | congruence].
  - destruct (String.eqb_spec k' k) as [-> | Hk].
    + split; [congruence | now left].
    + rewrite <- IH. split; [intros [? | ?]; [congruence | assumption]|].
      now right.
Qed.

Lemma keys_setOwn (o : t) (k v k0 : string) :
  In k0 (keys (setOwn o k v)) <-> k0 = k \/ In k0 (keys o).
Proof.
  rewrite !getOwn_keys. destruct (String.eqb_spec k0 k) as [-> | Hneq].
  - rewrite getOwn_setOwn_same. split; [now left | congruence].
  - rewrite getOwn_setOwn_other by assumption. tauto.
Qed.

Lemma setOwn_NoDup (o : t) (k v : string) :
  NoDup (keys o) -> NoDup (keys (setOwn o k v)).
Proof.
  unfold keys. induction o as [| [k' v'] rest IH]; simpl; intro Hnd.
  - constructor; [simpl; tauto | constructor].
  - inversion Hnd as [| x xs Hfresh Hrest]; subst.
    destruct (String.eqb_spec k' k) as [-> | Hk]; simpl.
    + now constructor.
    + constructor; [|now apply IH].
      intro Hin. apply Hfresh.
      apply (keys_setOwn rest k v k') in Hin.
      destruct Hin as [-> | Hin]; [congruence | exact Hin].
Qed.

Local Abbreviation step :=
  (fun (map : t) (error : FieldError.t) =>
     set map (FieldError.field error) (FieldError.message error)).

Lemma fold_lookup (errors : list FieldError.t) :
  forall acc f,
    f <> "__proto__" ->
    getOwn (fold_left step errors acc) f
    = match lastErrorFor f errors with
      | Some e => Some (FieldError.message e)
      | None => getOwn acc f
      end.
Proof.
  induction errors as [| e rest IH] using rev_ind; intros acc f Hf.
  - reflexivity.
  - rewrite fold_left_app. simpl. unfold lastErrorFor.
    rewrite rev_app_distr. simpl. unfold set at 1.
    destruct (String.eqb_spec (FieldError.field e) f) as [Heq | Hneq].
    + rewrite Heq.
      destruct (String.eqb_spec f "__proto__"); [contradiction|].
      apply getOwn_setOwn_same.
    + fold (lastErrorFor f rest). rewrite <- IH by assumption.
      destruct (String.eqb (FieldError.field e) "__proto__");
        [reflexivity|].
      apply getOwn_setOwn_other. congruence.
Qed.

Lemma fold_proto (errors : list FieldError.t) :
  forall acc,
    getOwn acc "__proto__" = None ->
    getOwn (fold_left step errors acc) "__proto__" = None.
Proof.
  induction errors as [| e rest IH]; intros acc Hacc; simpl;
    [assumption|].
  apply IH. unfold set.
  destruct (String.eqb_spec (FieldError.field e) "__proto__") as [_ | Hk];
    [assumption|].
  rewrite getOwn_setOwn_other; [assumption | congruence].
Qed.

Lemma fold_NoDup (errors : list FieldError.t) :
  forall acc, NoDup (keys acc) ->
              NoDup (keys (fold_left step errors acc)).
Proof.
  induction errors as [| e rest IH]; intros acc Hacc; simpl;
    [assumption|].
  apply IH. unfold set.
  destruct (String.eqb (FieldError.field e) "__proto__");
    [assumption | now apply setOwn_NoDup].
Qed.

Lemma lastErrorFor_some (f : string) (errors : list FieldError.t) :
  (exists e, lastErrorFor f errors = Some e)
  <-> exists e, In e errors /\ FieldError.field e = f.
Proof.
  unfold lastErrorFor. split.
  - intros [e He]. apply find_some in He. destruct He as [Hin Heq].
    exists e. split; [now apply in_rev | now apply String.eqb_eq].
  - intros [e [Hin Heq]].
    destruct (find (fun e0 => String.eqb (FieldError.field e0) f)
                   (rev errors)) as [e' |] eqn:Hfind; [now exists e'|].
    exfalso.
    pose proof (find_none _ _ Hfind e (proj1 (in_rev errors e) Hin))
      as Hno.
    simpl in Hno. rewrite Heq, String.eqb_refl in Hno. discriminate.
Qed.

Lemma lastErrorFor_app (f : string) (a b : list FieldError.t) :
  lastErrorFor f (a ++ b)
  = match lastErrorFor f b with
    | Some e => Some e
    | None => lastErrorFor f a
    end.
Proof.
  unfold lastErrorFor. rewrite rev_app_distr.
  induction (rev b) as [| e rest IH]; simpl; [reflexivity|].
  destruct (String.eqb (FieldError.field e) f); [reflexivity | exact IH].
Qed.

End ErrorMapFacts.

Lemma toErrorMap_lookup_aux (errors : list FieldError.t) (f : string) :
  JSObject.getOwn (toErrorMap errors) f
  = if String.eqb f "__proto__" then None
    else option_map FieldError.message (lastErrorFor f errors).
Proof.
  unfold toErrorMap. destruct (String.eqb_spec f "__proto__") as [-> | Hf].
  - now apply ErrorMapFacts.fold_proto.
  - rewrite ErrorMapFacts.fold_lookup by assumption.
    now destruct (lastErrorFor f errors).
Qed.

(** X13.  In the error map the message under a field name is that of the
    last error about the field, and there is none when no error is about
    it; the name [__proto__] never gets a message. *)
Theorem toErrorMap_last_wins (errors : list FieldError.t) (f : string) :
  JSObject.getOwn (toErrorMap errors) f
  = if String.eqb f "__proto__" then None
    else option_map FieldError.message (lastErrorFor f errors).
Proof. apply toErrorMap_lookup_aux. Qed.

(** X14.  The own properties of the error map are the field names of the
    errors other than [__proto__], each once; so there are at most as many
    as errors. *)
Theorem toErrorMap_keys (errors : list FieldError.t) :
  NoDup (JSObject.keys (toErrorMap errors))
  /\ (forall k,
         In k (JSObject.keys (toErrorMap errors))
         <-> k <> "__proto__"
             /\ exists e, In e errors /\ FieldError.field e = k)
  /\ List.length (JSObject.keys (toErrorMap errors)) <= List.length errors.
Proof.
  assert (Hnodup : NoDup (JSObject.keys (toErrorMap errors))).
  { unfold toErrorMap. apply ErrorMapFacts.fold_NoDup. constructor. }
  assert (Hkeys : forall k,
             In k (JSObject.keys (toErrorMap errors))
             <-> k <> "__proto__"
                 /\ exists e, In e errors /\ FieldError.field e = k).
  { intro k. rewrite ErrorMapFacts.getOwn_keys.
    pose proof (toErrorMap_lookup_aux errors k) as Hget.
    rewrite Hget. clear Hget.
    destruct (String.eqb_spec k "__proto__") as [Hk | Hk].
    - split; [congruence | tauto].
    - destruct (lastErrorFor k errors) as [e |] eqn:Hlast; simpl.
      + split; [|congruence]. intros _. split; [assumption|].
        apply (proj1 (ErrorMapFacts.lastErrorFor_some k errors)).
        now exists e.
      + split; [congruence|]. intros [_ Hex].
        apply (proj2 (ErrorMapFacts.lastErrorFor_some k errors)) in Hex.
        destruct Hex as [e He]. congruence. }
  split; [exact Hnodup|]. split; [exact Hkeys|].
  rewrite <- (length_map FieldError.field errors).
  apply NoDup_incl_length; [exact Hnodup|].
  intros k Hk. apply Hkeys in Hk. destruct Hk as [_ [e [Hin <-]]].
  now apply in_map.
Qed.

(** X15.  The error map of two lists of errors, one after the other,
    answers with the message of the second list where it has one and with
    that of the first list otherwise. *)
Theorem toErrorMap_app (a b : list FieldError.t) (f : string) :
  JSObject.getOwn (toErrorMap (a ++ b)) f
  = match JSObject.getOwn (toErrorMap b) f with
    | Some m => Some m
    | None => JSObject.getOwn (toErrorMap a) f
    end.
Proof.
  rewrite !toErrorMap_lookup_aux.
  destruct (String.eqb f "__proto__"); [reflexivity|].
  rewrite ErrorMapFacts.lastErrorFor_app.
  now destruct (lastErrorFor f b).
Qed.

(** ** The email check of the register validator *)

Module EmailFacts.
Import Regex.
Import RegexFacts.

Lemma star_class (p : ascii -> bool) (s : list ascii) :
  lang (Star (Class p)) s <-> allChars p s.
Proof.
  split.
  - intro H. remember (Star (Class p)) as r eqn:Hr.
    induction H as [| | | | | | r0 s1 s2 H1 _ H2 IH2]; try discriminate.
    + constructor.
    + injection Hr as ->. inv H1. simpl. constructor; [assumption|].
      now apply IH2.
  - intro H. induction H as [| c s Hc _ IH].
    + constructor.
    + change (lang (Star (Class p)) ([c] ++ s)).
      constructor; [now constructor | assumption].
Qed.

Lemma plus_class (p : ascii -> bool) (s : list ascii) :
  lang (Plus (Class p)) s <-> s <> [] /\ allChars p s.
Proof.
  unfold Plus. split.
  - intro H. inv H.
    match goal with
    | Hc : lang (Class _) _, Hs : lang (Star _) _ |- _ =>
        inv Hc; apply star_class in Hs
    end.
    simpl. split; [discriminate | now constructor].
  - intros [Hne Hall]. destruct Hall as [| c s Hc Hs]; [congruence|].
    change (lang (Seq (Class p) (Star (Class p))) ([c] ++ s)).
    constructor; [now constructor | now apply star_class].
Qed.

Lemma plus_of_star (r : t) (s : list ascii) :
  lang (Star r) s -> s <> [] -> lang (Plus r) s.
Proof.
  intro H. remember (Star r) as r' eqn:Hr.
  induction H as [| | | | | | r0 s1 s2 H1 _ H2 IH2]; try discriminate.
  - congruence.
  - injection Hr as ->. intro Hne. destruct s1 as [| c s1]; simpl in *.
    + now apply IH2.
    + change (lang (Plus r) ((c :: s1) ++ s2)). now constructor.
Qed.

(** [[p]{2,4}] *)
Lemma chunk (p : ascii -> bool) (s : list ascii) :
  lang (Repeat 2 4 (Class p)) s
  <-> allChars p s /\ 2 <= List.length s <= 4.
Proof.
  unfold Repeat. simpl. split.
  - intro H.
    repeat match goal with
           | Hs : lang (Seq _ _) _ |- _ => inv Hs
           | Hc : lang (Class _) _ |- _ => inv Hc
           | He : lang Empty _ |- _ => inv He
           | Ha : lang (Opt _) _ |- _ => inv Ha
           end;
      simpl; (split; [repeat constructor; assumption | lia]).
  - intros [Hall Hlen]. apply matchHere_whole.
    destruct s as [| a [| b [| c [| d [| e s]]]]]; simpl in Hlen; try lia;
      unfold allChars in Hall;
      repeat match goal with
             | Hf : Forall _ (_ :: _) |- _ => inv Hf
             end;
      simpl;
      repeat match goal with
             | Hp : p _ = true |- _ => rewrite Hp; clear Hp; simpl
             end;
      reflexivity.
Qed.

Lemma star_chunk (p : ascii -> bool) (s : list ascii) :
  lang (Star (Repeat 2 4 (Class p))) s
  <-> allChars p s /\ (s = [] \/ 2 <= List.length s).
Proof.
  split.
  - intro H. remember (Star (Repeat 2 4 (Class p))) as r eqn:Hr.
    induction H as [| | | | | | r0 s1 s2 H1 _ H2 IH2]; try discriminate.
    + split; [constructor | now left].
    + injection Hr as ->. apply chunk in H1. destruct H1 as [Hall1 Hlen1].
      destruct (IH2 eq_refl) as [Hall2 _]. split.
      * apply Forall_app. now split.
      * right. rewrite length_app. lia.
  - intros [Hall Hlen].
    remember (List.length s) as n eqn:Hn. revert s Hall Hlen Hn.
    induction n as [n IH] using lt_wf_ind. intros s Hall Hlen Hn.
    destruct s as [| a [| b rest]]; simpl in *.
    + constructor.
    + destruct Hlen as [Hlen | Hlen]; [discriminate | lia].
    + destruct rest as [| c [| d rest']].
      * change (lang (Star (Repeat 2 4 (Class p))) ([a; b] ++ [])).
        constructor; [|constructor].
        apply chunk. split; [assumption | simpl; lia].
      * change (lang (Star (Repeat 2 4 (Class p))) ([a; b; c] ++ [])).
        constructor; [|constructor].
        apply chunk. split; [assumption | simpl; lia].
      * change (lang (Star (Repeat 2 4 (Class p)))
                     ([a; b] ++ c :: d :: rest')).
        inv Hall.
        match goal with Ht : Forall _ (b :: _) |- _ => inv Ht end.
        constructor.
        -- apply chunk. split; [repeat constructor; assumption|].
           simpl. lia.
        -- apply (IH (List.length (c :: d :: rest')));
             [simpl; lia | assumption | right; simpl; lia | reflexivity].
Qed.

(** [([p]{2,4})+]: the bound of four is undone by the repetition. *)
Lemma plus_chunk (p : ascii -> bool) (s : list ascii) :
  lang (Plus (Repeat 2 4 (Class p))) s
  <-> allChars p s /\ 2 <= List.length s.
Proof.
  split.
  - unfold Plus. intro H. inv H.
    match goal with
    | Hc : lang (Repeat _ _ _) _, Hs : lang (Star _) _ |- _ =>
        apply chunk in Hc; apply star_chunk in Hs;
        destruct Hc as [Hall1 Hlen1]; destruct Hs as [Hall2 _]
    end.
    split; [apply Forall_app; now split | rewrite length_app; lia].
  - intros [Hall Hlen]. apply plus_of_star.
    + apply star_chunk. split; [assumption | now right].
    + destruct s; simpl in Hlen; [lia | discriminate].
Qed.

Lemma isChar_eq (x c : ascii) : isChar x c = true <-> c = x.
Proof.
  unfold isChar. rewrite Ascii.eqb_eq. split; congruence.
Qed.

Lemma label_is_host (s : list ascii) :
  allChars emailLabelChar s -> allChars emailHostChar s.
Proof.
  apply Forall_impl. intros c Hc. unfold emailHostChar. now rewrite Hc.
Qed.

(** One label of the domain with its dot. *)
Lemma label_dot (s : list ascii) :
  lang (Seq (Plus (Class emailLabelChar)) (Class (isChar "."))) s
  <-> exists label, s = label ++ ["."%char]
                    /\ label <> [] /\ allChars emailLabelChar label.
Proof.
  split.
  - intro H. inv H.
    match goal with
    | Hl : lang (Plus _) _, Hd : lang (Class _) _ |- _ =>
        apply plus_class in Hl; inv Hd
    end.
    match goal with
    | Hd : isChar _ _ = true |- _ => apply isChar_eq in Hd; subst
    end.
    eexists. split; [reflexivity | assumption].
  - intros [label [-> [Hne Hall]]].
    constructor; [now apply plus_class | now constructor].
Qed.

Lemma star_label_dot (s : list ascii) :
  lang (Star (Seq (Plus (Class emailLabelChar)) (Class (isChar ".")))) s ->
  s = [] \/ exists host, s = host ++ ["."%char]
                         /\ host <> [] /\ allChars emailHostChar host.
Proof.
  intro H.
  remember (Star (Seq (Plus (Class emailLabelChar)) (Class (isChar "."))))
    as r eqn:Hr.
  induction H as [| | | | | | r0 s1 s2 H1 _ H2 IH2]; try discriminate.
  - now left.
  - injection Hr as ->. right. apply label_dot in H1.
    destruct H1 as [label [-> [Hne Hall]]].
    destruct (IH2 eq_refl) as [-> | [host [-> [Hne2 Hall2]]]].
    + exists label. rewrite app_nil_r.
      split; [reflexivity|]. split; [assumption | now apply label_is_host].
    + exists (label ++ "."%char :: host). split.
      * now rewrite <- !app_assoc.
      * split; [destruct label; [congruence | discriminate]|].
        apply Forall_app. split; [now apply label_is_host|].
        constructor; [reflexivity | assumption].
Qed.

Lemma not_in_class (p : ascii -> bool) (c : ascii) (s : list ascii) :
  allChars p s -> p c = false -> count_occ ascii_dec s c = 0.
Proof.
  intros Hall Hc. apply count_occ_not_In. intro Hin.
  unfold allChars in Hall. rewrite Forall_forall in Hall.
  specialize (Hall c Hin). congruence.
Qed.

End EmailFacts.

Lemma email_pattern :
  Regex.pattern emailRegex
  = Regex.Seq (Regex.Plus (Regex.Class emailLocalChar))
      (Regex.Seq (Regex.Class (Regex.isChar "@"))
         (Regex.Seq
            (Regex.Plus
               (Regex.Seq (Regex.Plus (Regex.Class emailLabelChar))
                          (Regex.Class (Regex.isChar "."))))
            (Regex.Plus (Regex.Repeat 2 4 (Regex.Class Regex.alnum))))).
Proof. reflexivity. Qed.

Lemma one_at_sign (local host tld : list ascii) :
  allChars emailLocalChar local -> allChars emailHostChar host ->
  allChars Regex.alnum tld ->
  count_occ ascii_dec (local ++ "@"%char :: host ++ "."%char :: tld)
            "@"%char = 1.
Proof.
  intros Hlocal Hhost Htld. rewrite count_occ_app.
  rewrite (EmailFacts.not_in_class _ "@"%char _ Hlocal eq_refl).
  rewrite count_occ_cons_eq by reflexivity.
  rewrite count_occ_app.
  rewrite (EmailFacts.not_in_class _ "@"%char _ Hhost eq_refl).
  rewrite count_occ_cons_neq by discriminate.
  now rewrite (EmailFacts.not_in_class _ "@"%char _ Htld eq_refl).
Qed.

(** The strings of the email expression. *)
Lemma email_lang (cs : list ascii) :
  Regex.lang (Regex.pattern emailRegex) cs ->
  exists local host tld,
    cs = local ++ "@"%char :: host ++ "."%char :: tld
    /\ local <> [] /\ allChars emailLocalChar local
    /\ host <> [] /\ allChars emailHostChar host
    /\ allChars Regex.alnum tld /\ 2 <= List.length tld.
Proof.
  rewrite email_pattern. intro H.
  inversion H as [| | ? ? local r1 Hlocal H1 | | | |]; subst; clear H.
  inversion H1 as [| | ? ? at_ r2 Hat H2 | | | |]; subst; clear H1.
  inversion H2 as [| | ? ? hosts tld Hhosts Htld | | | |]; subst; clear H2.
  apply EmailFacts.plus_class in Hlocal. destruct Hlocal as [Hlne Hlall].
  inversion Hat as [| ? c Hc | | | | |]; subst; clear Hat.
  apply EmailFacts.isChar_eq in Hc. subst c.
  apply EmailFacts.plus_chunk in Htld. destruct Htld as [Htall Htlen].
  unfold Regex.Plus in Hhosts.
  inversion Hhosts as [| | ? ? first more Hfirst Hmore | | | |]; subst;
    clear Hhosts.
  apply EmailFacts.label_dot in Hfirst.
  destruct Hfirst as [label [-> [Hbne Hball]]].
  apply EmailFacts.star_label_dot in Hmore.
  destruct Hmore as [-> | [host [-> [Hhne Hhall]]]].
  - exists local, label, tld. rewrite app_nil_r.
    rewrite <- ?app_assoc. simpl.
    repeat split; try assumption. now apply EmailFacts.label_is_host.
  - exists local, (label ++ "."%char :: host), tld.
    rewrite <- ?app_assoc. simpl. rewrite <- ?app_assoc. simpl.
    repeat split; try assumption.
    + destruct label; discriminate.
    + apply Forall_app. split; [now apply EmailFacts.label_is_host|].
      constructor; [reflexivity | assumption].
Qed.

(** X16.  An email that the validator accepts reads
    [local @ host . tld]: a non-empty local part of letters, digits,
    [_], [.] and [-]; a non-empty host of letters, digits, [-] and [.];
    and, after a dot, at least two letters or digits up to the end.  It
    has exactly one [@]. *)
Theorem accepted_email_shape (s : string) :
  Regex.test emailRegex s = true ->
  exists local host tld,
    list_ascii_of_string s = local ++ "@"%char :: host ++ "."%char :: tld
    /\ local <> [] /\ allChars emailLocalChar local
    /\ host <> [] /\ allChars emailHostChar host
    /\ allChars Regex.alnum tld /\ 2 <= List.length tld
    /\ count_occ ascii_dec (list_ascii_of_string s) "@"%char = 1.
Proof.
  unfold Regex.test.
  change (Regex.fromStart emailRegex) with true.
  change (Regex.toEnd emailRegex) with true. cbv iota.
  rewrite RegexFacts.matchHere_whole. intro H.
  apply email_lang in H.
  destruct H as [local [host [tld [Heq [? [Hl [? [Hh [Ht ?]]]]]]]]].
  exists local, host, tld. rewrite Heq.
  repeat split; try assumption. now apply one_at_sign.
Qed.

(** X17.  Every address [local@label.tld] with a non-empty local part and
    label over their character classes and a tld of two or more letters
    or digits is accepted: the tld may be longer than the four characters
    the expression names. *)
Theorem email_with_any_long_tld_is_accepted (local label tld : list ascii) :
  local <> [] -> allChars emailLocalChar local ->
  label <> [] -> allChars emailLabelChar label ->
  allChars Regex.alnum tld -> 2 <= List.length tld ->
  Regex.test emailRegex
    (string_of_list_ascii (local ++ "@"%char :: label ++ "."%char :: tld))
  = true.
Proof.
  intros Hlne Hlall Hbne Hball Htall Htlen. unfold Regex.test.
  rewrite list_ascii_of_string_of_list_ascii.
  change (Regex.fromStart emailRegex) with true.
  change (Regex.toEnd emailRegex) with true. cbv iota.
  apply RegexFacts.matchHere_whole. rewrite email_pattern.
  constructor; [now apply EmailFacts.plus_class|].
  change ("@"%char :: label ++ "."%char :: tld)
    with (["@"%char] ++ label ++ "."%char :: tld).
  constructor; [now constructor|].
  replace (label ++ "."%char :: tld)
    with (((label ++ ["."%char]) ++ []) ++ tld)
    by (rewrite app_nil_r, <- app_assoc; reflexivity).
  constructor; [|now apply EmailFacts.plus_chunk].
  constructor; [|constructor].
  apply EmailFacts.label_dot. exists label. auto.
Qed.

(** ** The further properties on the sample store *)

Lemma page_is_ordered_run_witness :
  Lib.getSession Sample.alice false = Returned (Some (mkSession "alice"))
  /\ exists page,
      outcome (feed (Sample.firstPage 5) Sample.alice Sample.store)
      = Returned page
      /\ descending PostType.createdAt (PaginatedPosts.posts page).
Proof.
  split; [reflexivity|].
  destruct (proj1 (page_is_ordered_run Lib.Request Lib.getSession
                     Lib.getPaginationData (Sample.firstPage 5)
                     Sample.store)
                  Sample.alice (Some (mkSession "alice")) eq_refl)
    as [page [Hout [_ Hdesc]]].
  exists page. split; assumption.
Defined.

Lemma page_is_prefix_of_eligible_witness :
  let input := Sample.firstPage 2 in
  (0 < in_take input)%Z
  /\ take (Lib.getPaginationData input) = Some (in_take input + 1)%Z
  /\ exists page,
      outcome (feed input Sample.anonymous Sample.store) = Returned page
      /\ PaginatedPosts.posts page = [Sample.p3; Sample.p2]
      /\ PaginatedPosts.hasMore page = true.
Proof.
  intro input.
  assert (Hpos : (0 < in_take input)%Z) by reflexivity.
  assert (Htake : take (Lib.getPaginationData input)
                  = Some (in_take input + 1)%Z) by reflexivity.
  split; [exact Hpos|]. split; [exact Htake|].
  destruct (proj1 (page_is_prefix_of_eligible Lib.Request Lib.getSession
                     Lib.getPaginationData input Sample.store Hpos Htake)
                  Sample.anonymous None eq_refl)
    as [page [Hout [Hpage [Hmore _]]]].
  exists page. split; [exact Hout|]. split; [exact Hpage|].
  apply Hmore. vm_compute. reflexivity.
Defined.

Lemma nonpositive_take_gives_empty_page_witness :
  let input := Sample.firstPage (-1) in
  (in_take input <= 0)%Z
  /\ take (Lib.getPaginationData input) = Some (in_take input + 1)%Z
  /\ exists page,
      outcome (feed input Sample.anonymous Sample.store) = Returned page
      /\ PaginatedPosts.posts page = []
      /\ PaginatedPosts.hasMore page = true.
Proof.
  intro input.
  assert (Hle : (in_take input <= 0)%Z) by (vm_compute; discriminate).
  assert (Htake : take (Lib.getPaginationData input)
                  = Some (in_take input + 1)%Z) by reflexivity.
  split; [exact Hle|]. split; [exact Htake|].
  destruct (proj1 (nonpositive_take_gives_empty_page Lib.Request
                     Lib.getSession Lib.getPaginationData input
                     Sample.store Hle Htake)
                  Sample.anonymous None eq_refl)
    as [page [Hout [Hpage [Hmore _]]]].
  exists page. split; [exact Hout|]. split; [exact Hpage|].
  apply Hmore. reflexivity.
Defined.

Lemma comments_belong_to_parent_witness :
  exists page,
    outcome (commentsOf Sample.p1 (Sample.firstPage 5) Sample.store)
    = Returned page
    /\ forall c, In c (PaginatedComments.comments page) ->
                 Comment.postId c = "p1".
Proof.
  destruct (comments_belong_to_parent Lib.getPaginationData Sample.p1
              (Sample.firstPage 5) Sample.store)
    as [page [Hout [Hall _]]].
  exists page. split; [exact Hout|].
  intros c Hin. exact (proj2 (Hall c Hin)).
Defined.

Lemma feed_without_subscription_is_empty_witness :
  let carol : Lib.Request := Some (mkSession "carol") in
  Lib.getSession carol false = Returned (Some (mkSession "carol"))
  /\ sessionUser (Some (mkSession "carol")) = Some "carol"
  /\ (forall r, In r (userSubs Sample.store) -> UserSub.userId r <> "carol")
  /\ exists page,
      outcome (feed (Sample.firstPage 2) carol Sample.store) = Returned page
      /\ PaginatedPosts.posts page = [].
Proof.
  intro carol.
  assert (Hnone : forall r, In r (userSubs Sample.store) ->
                            UserSub.userId r <> "carol").
  { intros r Hin. simpl in Hin.
    repeat (destruct Hin as [<- | Hin]; [discriminate|]).
    contradiction. }
  split; [reflexivity|]. split; [reflexivity|]. split; [exact Hnone|].
  destruct (feed_without_subscription_is_empty Lib.Request Lib.getSession
              Lib.getPaginationData (Sample.firstPage 2) carol
              (Some (mkSession "carol")) "carol" Sample.store
              eq_refl eq_refl Hnone)
    as [page [Hout [Hpage _]]].
  exists page. split; assumption.
Defined.

Lemma page_within_requested_size_witness :
  (0 <= in_take (Sample.firstPage 2))%Z
  /\ forall page,
      outcome (feed (Sample.firstPage 2) Sample.anonymous Sample.store)
      = Returned page ->
      (Z.of_nat (List.length (PaginatedPosts.posts page)) <= 2)%Z.
Proof.
  assert (Hnonneg : (0 <= in_take (Sample.firstPage 2))%Z)
    by (vm_compute; discriminate).
  split; [exact Hnonneg|].
  intros page Hout.
  exact (proj1 (proj1 (page_within_requested_size Lib.Request
                         Lib.getSession Lib.getPaginationData
                         (Sample.firstPage 2) Sample.store Hnonneg)
                      Sample.anonymous page Hout)).
Defined.

Lemma created_post_is_callers_witness :
  exists post,
    outcome (createPost "rocq" Sample.goodInput Sample.alice "p4" 99%Z
                        Sample.store) = Returned post
    /\ PostType.creatorId post = "alice"
    /\ PostType.subName post = "rocq".
Proof.
  eexists. split; [reflexivity|].
  destruct (created_post_is_callers Lib.Request Lib.getSession
              Lib.validatePost "rocq" Sample.goodInput Sample.alice "p4"
              99%Z Sample.store _ eq_refl)
    as [se [Hsession [Hcreator [Hsub _]]]].
  injection Hsession as <-. split; assumption.
Defined.

Lemma created_post_can_be_read_witness :
  exists post,
    outcome (createPost "rocq" Sample.goodInput Sample.alice "p4" 99%Z
                        Sample.store) = Returned post
    /\ outcome (Query_post "p4"
                  (final (createPost "rocq" Sample.goodInput Sample.alice
                                     "p4" 99%Z Sample.store)))
       = Returned (Some post).
Proof.
  eexists. split; [reflexivity|].
  exact (proj1 (proj2 (created_post_can_be_read Lib.Request Lib.getSession
                         Lib.validatePost "rocq" Sample.goodInput
                         Sample.alice "p4" 99%Z Sample.store _ eq_refl))).
Defined.

Lemma edited_post_keeps_identity_witness :
  exists post,
    outcome (editPost "p1" Sample.goodInput Sample.alice 99%Z Sample.store)
    = Returned post
    /\ PostType.id post = "p1"
    /\ PostType.title post = "hello".
Proof.
  eexists. split; [reflexivity|].
  destruct (edited_post_keeps_identity Lib.Request Lib.getSession "p1"
              Sample.goodInput Sample.alice 99%Z Sample.store _ eq_refl)
    as [_ [Hid [Htitle _]]].
  split; assumption.
Defined.

Lemma sample_ids_unique : uniquePostIds Sample.store.
Proof.
  unfold uniquePostIds. simpl.
  repeat (constructor; [simpl; intuition discriminate|]). constructor.
Defined.

Lemma deleted_post_is_gone_witness :
  uniquePostIds Sample.quiet
  /\ outcome (deletePost "p2" Sample.bob Sample.quiet) = Returned true
  /\ outcome (deletePost "p2" Sample.bob
                (final (deletePost "p2" Sample.bob Sample.quiet)))
     = Thrown (ApolloError "post not found").
Proof.
  assert (Huniq : uniquePostIds Sample.quiet) by exact sample_ids_unique.
  split; [exact Huniq|]. split; [reflexivity|].
  exact (proj1 (proj2 (proj2 (deleted_post_is_gone Lib.Request
                                Lib.getSession "p2" Sample.bob Sample.quiet
                                true Huniq eq_refl)))).
Defined.

Lemma mutations_keep_ids_unique_witness :
  uniquePostIds Sample.store
  /\ uniquePostIds
       (final (createPost "rocq" Sample.goodInput Sample.alice "p4" 99%Z
                          Sample.store)).
Proof.
  split; [exact sample_ids_unique|].
  exact (proj1 (mutations_keep_ids_unique Lib.Request Lib.getSession
                  Lib.validatePost "rocq" "p1" Sample.goodInput
                  Sample.alice "p4" 99%Z Sample.store sample_ids_unique)).
Defined.

Lemma others_posts_are_untouched_witness :
  In Sample.p2 (posts Sample.store)
  /\ (forall se, Lib.getSession Sample.alice true = Returned (Some se) ->
                 PostType.creatorId Sample.p2 <> userId se)
  /\ In Sample.p2
        (posts (final (deletePost "p2" Sample.alice Sample.store))).
Proof.
  assert (Hin : In Sample.p2 (posts Sample.store)) by (simpl; auto).
  assert (Hother : forall se,
             Lib.getSession Sample.alice true = Returned (Some se) ->
             PostType.creatorId Sample.p2 <> userId se).
  { intros se Hse. injection Hse as <-. discriminate. }
  split; [exact Hin|]. split; [exact Hother|].
  exact (proj2 (others_posts_are_untouched Lib.Request Lib.getSession "p2"
                  Sample.goodInput Sample.alice 99%Z Sample.store
                  Sample.p2 Hin Hother)).
Defined.

Lemma toErrorMap_keys_witness :
  In "email"
     (JSObject.keys
        (toErrorMap [FieldError.mk "email" "incorrect email";
                     FieldError.mk "__proto__" "x";
                     FieldError.mk "email" "taken"])).
Proof.
  apply (proj1 (proj2 (toErrorMap_keys _))).
  split; [discriminate|].
  exists (FieldError.mk "email" "taken"). split; [simpl; auto | reflexivity].
Defined.

Lemma accepted_email_shape_witness :
  Regex.test emailRegex "ann@mail.example.org" = true
  /\ count_occ ascii_dec (list_ascii_of_string "ann@mail.example.org")
               "@"%char = 1.
Proof.
  assert (Hok : Regex.test emailRegex "ann@mail.example.org" = true)
    by (vm_compute; reflexivity).
  split; [exact Hok|].
  destruct (accepted_email_shape _ Hok)
    as [local [host [tld [_ [_ [_ [_ [_ [_ [_ Hone]]]]]]]]]].
  exact Hone.
Defined.

Lemma email_with_any_long_tld_is_accepted_witness :
  Regex.test emailRegex "ann@example.museum" = true.
Proof.
  apply (email_with_any_long_tld_is_accepted
           (list_ascii_of_string "ann") (list_ascii_of_string "example")
           (list_ascii_of_string "museum")).
  - discriminate.
  - repeat constructor.
  - discriminate.
  - repeat constructor.
  - repeat constructor.
  - simpl. lia.
Defined.


(** Rows with the same creation time come out in the order of the table. *)
Example sortDesc_keeps_ties :
  Prisma.sortDesc PostType.createdAt
    [Sample.post "a" "rocq" "alice" 7; Sample.post "b" "rocq" "alice" 9;
     Sample.post "c" "rocq" "alice" 7; Sample.post "d" "rocq" "alice" 7]
  = [Sample.post "b" "rocq" "alice" 9; Sample.post "a" "rocq" "alice" 7;
     Sample.post "c" "rocq" "alice" 7; Sample.post "d" "rocq" "alice" 7].
Proof. reflexivity. Qed.
